(** * WINAPI shared-object loader: a shallow embedding and its properties

    Source: inference-engine/include/details/os/win_shared_object_loader.h
    (class [InferenceEngine::details::SharedObjectLoader]).

    The class wraps [LoadLibrary], [FreeLibrary], [GetProcAddress] and the
    process-wide DLL search directory ([GetDllDirectory]/[SetDllDirectory]).
    The member functions are embedded as computations in a state-and-error
    monad over an abstract operating system; every call of an OS entry point
    is appended to a call log so that statements about "what is passed to
    which primitive, in which order" can be made.

    Contents: the C strings and buffers the code handles; the path
    functions; the OS interface, the monad and the member functions; the
    assumptions on the OS that some properties need, and a reference OS
    that meets them; then the properties, each headed by the number of the
    claim of the specification it settles (C1 to C10). *)

From Stdlib Require Import Ascii String.
From Stdlib Require Import List Bool Arith NArith Lia.
Import ListNotations.

Set Implicit Arguments.

(** ** Characters, strings and buffers *)

(** [CHAR] is the 8-bit character of the [A] entry points, [WCHAR] the
    UTF-16 code unit of the [W] entry points. *)
Definition CHAR : Type := ascii.
Definition WCHAR : Type := N.

(** [DWORD], [HMODULE] and [FARPROC] are machine words; the null handle and
    the null pointer are the word [0]. *)
Definition DWORD : Type := N.
Definition HMODULE : Type := N.
Definition FARPROC : Type := N.

Definition NUL : CHAR := zero.
Definition WNUL : WCHAR := 0%N.

(** A C string ([LPCSTR], [LPCWSTR], [const char*]) is represented by the
    characters that precede its terminating NUL; a pointer into the string
    is represented by its offset from the start. [std::basic_string] is a
    list of characters as well. *)
Definition LPCSTR : Type := list CHAR.
Definition LPCWSTR : Type := list WCHAR.

(** Integral conversion of a [char] to a [wchar_t] (the separator is passed
    to [wcsrchr] this way). *)
Definition wchar_of_char (c : CHAR) : WCHAR := N_of_ascii c.

(** String literals. *)
Definition lit (s : string) : list CHAR := list_ascii_of_string s.
Definition wlit (s : string) : list WCHAR := map wchar_of_char (lit s).

(** [strchr s c]: the first occurrence of [c] in [s]; the terminating NUL is
    part of the string that is searched. *)
Fixpoint strchr (s : list CHAR) (c : CHAR) : option nat :=
  match s with
  | [] => if Ascii.eqb c NUL then Some 0 else None
  | x :: s' =>
      if Ascii.eqb x c then Some 0
      else match strchr s' c with
           | Some i => Some (S i)
           | None => None
           end
  end.

(** [wcsrchr s c]: the last occurrence of [c] in [s]. *)
Fixpoint wcsrchr (s : list WCHAR) (c : WCHAR) : option nat :=
  match s with
  | [] => if N.eqb c WNUL then Some 0 else None
  | x :: s' =>
      match wcsrchr s' c with
      | Some i => Some (S i)
      | None => if N.eqb x c then Some 0 else None
      end
  end.

(** [original.substr(0, n)]. *)
Definition substr0 {C : Type} (original : list C) (n : nat) : list C :=
  firstn n original.

(** [v.resize(n)] with value-initialised (zero) new elements. *)
Definition resize {C : Type} (zero : C) (v : list C) (n : nat) : list C :=
  firstn n v ++ repeat zero (n - length v).

(** What an OS entry point stores through a buffer pointer: [data] replaces
    the first [length data] elements. The store stays inside the buffer only
    when [data] is not longer than it. *)
Definition store {C : Type} (buf data : list C) : option (list C) :=
  if length data <=? length buf
  then Some (data ++ skipn (length data) buf)
  else None.

(** Reading a C string from a buffer (the conversion of [&lpBuffer.front()]
    to a [std::basic_string]): the characters before the first NUL. A buffer
    without NUL makes the read run past the end of the storage. *)
Fixpoint c_string {C : Type} (is_nul : C -> bool) (buf : list C)
  : option (list C) :=
  match buf with
  | [] => None
  | x :: buf' =>
      if is_nul x then Some []
      else match c_string is_nul buf' with
           | Some s => Some (x :: s)
           | None => None
           end
  end.

Definition is_NUL (c : CHAR) : bool := Ascii.eqb c NUL.
Definition is_WNUL (c : WCHAR) : bool := N.eqb c WNUL.

(** ** Path handling of the loader *)

(** [static const char kPathSeparator = '\\';] *)
Definition kPathSeparator : CHAR := "\"%char.

Definition FindLastPathSeparatorA (path : LPCSTR) : option nat :=
  let last_sep := strchr path kPathSeparator in
  last_sep.

Definition GetDirnameA (path : LPCSTR) : list CHAR :=
  let pos := FindLastPathSeparatorA path in
  match pos with
  | None => path
  | Some pos =>
      let original := path in
      substr0 original pos
  end.

Definition FindLastPathSeparatorW (path : LPCWSTR) : option nat :=
  let last_sep := wcsrchr path (wchar_of_char kPathSeparator) in
  last_sep.

Definition GetDirnameW (path : LPCWSTR) : list WCHAR :=
  let pos := FindLastPathSeparatorW path in
  match pos with
  | None => path
  | Some pos =>
      let original := path in
      substr0 original pos
  end.

(** ** The operating system *)

(** The entry points of the host OS that the loader calls, over an abstract
    type [World] of OS states. They are not part of the repository and are
    taken as parameters.

    - [os_GetDllDirectoryA n w] is [GetDllDirectoryA(n, lpBuffer)]: the
      returned [DWORD], the characters the OS stores at [lpBuffer] (none
      are stored when the pointer is null) and the new OS state.
    - [os_SetDllDirectoryA], [os_FreeLibrary]: the [BOOL] result is dropped
      by every caller and is not modelled.
    - [os_LoadLibraryA] returns the module handle, [0] for a failed load.
    - [os_getcwd n w] is [_getcwd(buf, n)]: [None] is the null pointer.
    - [UNICODE] tells whether <windows.h> maps the generic names
      [GetDllDirectory], [SetDllDirectory] and [TEXT] to the [W] variants. *)
Class Win32 (World : Type) : Type := {
  UNICODE : bool;
  os_GetDllDirectoryA : DWORD -> World -> DWORD * list CHAR * World;
  os_GetDllDirectoryW : DWORD -> World -> DWORD * list WCHAR * World;
  os_SetDllDirectoryA : list CHAR -> World -> World;
  os_SetDllDirectoryW : list WCHAR -> World -> World;
  os_LoadLibraryA : list CHAR -> World -> HMODULE * World;
  os_LoadLibraryW : list WCHAR -> World -> HMODULE * World;
  os_FreeLibrary : HMODULE -> World -> World;
  os_GetProcAddress : HMODULE -> list CHAR -> World -> FARPROC * World;
  os_GetLastError : World -> DWORD;
  os_getcwd : nat -> World -> option (list CHAR);
  (* details::wStringtoMBCSstringChar of details/os/os_filesystem.hpp *)
  wStringtoMBCSstringChar : list WCHAR -> list CHAR
}.

(** One entry of the call log: an OS entry point with its arguments
    ([lpBuffer_null] tells whether the buffer pointer was null). *)
Inductive Call : Type :=
| call_GetDllDirectoryA (nBufferLength : DWORD) (lpBuffer_null : bool)
| call_GetDllDirectoryW (nBufferLength : DWORD) (lpBuffer_null : bool)
| call_SetDllDirectoryA (lpPathName : list CHAR)
| call_SetDllDirectoryW (lpPathName : list WCHAR)
| call_LoadLibraryA (lpLibFileName : list CHAR)
| call_LoadLibraryW (lpLibFileName : list WCHAR)
| call_FreeLibrary (hLibModule : HMODULE)
| call_GetProcAddress (hModule : HMODULE) (lpProcName : list CHAR)
| call_GetLastError
| call_getcwd (maxlen : nat).

(** ** Exceptions *)

(** What is streamed into an exception with [operator<<]. *)
Inductive StreamItem : Type :=
| Text (s : list CHAR)               (* a string literal or a non-null char* *)
| CharPtr (p : option (list CHAR))   (* a char* that may be null *)
| Number (d : DWORD).                (* a DWORD *)

(** Modelled from the spec: the macro THROW_IE_EXCEPTION and the class
    InferenceEngineException of details/ie_exception.hpp are not among the
    sources. Section 7 of the specification: failures surface as exceptions
    carrying a human-readable message; the exception is modelled by the
    sequence of items streamed into that message. *)
Definition InferenceEngineException : Type := list StreamItem.

(** Kinds of undefined behaviour the code can run into. *)
Inductive UB : Type :=
| EmptyFront          (* front() of an empty std::vector *)
| BufferOverrun       (* the OS stores more than the buffer holds *)
| UnterminatedString. (* a C string is read from a buffer without NUL *)

(** ** The state-and-error monad *)

Section Loader.

Context {World : Type} {os : Win32 World}.

(** The state of a run: the OS state, the log of OS calls made so far and
    the data member [shared_object] of the loader object at hand. *)
Record State : Type := mkState {
  world : World;
  calls : list Call;
  shared_object : HMODULE
}.

Inductive Outcome (A : Type) : Type :=
| Returned (a : A) (s : State)
| Threw (e : InferenceEngineException) (s : State)
| Undefined (u : UB).

Arguments Threw {A} e s.
Arguments Undefined {A} u.

Definition M (A : Type) : Type := State -> Outcome A.

Definition ret {A : Type} (a : A) : M A := fun s => Returned a s.

Definition bind {A B : Type} (m : M A) (k : A -> M B) : M B :=
  fun s =>
    match m s with
    | Returned a s' => k a s'
    | Threw e s' => Threw e s'
    | Undefined u => Undefined u
    end.

Definition THROW_IE_EXCEPTION {A : Type} (e : InferenceEngineException) : M A :=
  fun s => Threw e s.

Definition undefined {A : Type} (u : UB) : M A := fun _ => Undefined u.

Notation "x <- m ;; k" := (bind m (fun x => k))
  (at level 61, m at next level, right associativity).
Notation "m ;;; k" := (bind m (fun _ => k))
  (at level 61, right associativity).

(** Calling an OS entry point: the call is logged and the OS state replaced. *)
Definition os_call {A : Type} (c : Call) (f : World -> A * World) : M A :=
  fun s =>
    let (a, w) := f (world s) in
    Returned a (mkState w (calls s ++ [c]) (shared_object s)).

Definition is_null {A : Type} (p : option A) : bool :=
  match p with None => true | Some _ => false end.

(** [GetDllDirectoryA(n, lpBuffer)]; the result carries the buffer as the OS
    left it. *)
Definition GetDllDirectoryA (nBufferLength : DWORD)
    (lpBuffer : option (list CHAR)) : M (DWORD * option (list CHAR)) :=
  r <- os_call (call_GetDllDirectoryA nBufferLength (is_null lpBuffer))
               (os_GetDllDirectoryA nBufferLength) ;;
  match lpBuffer with
  | None => ret (fst r, None)
  | Some buf =>
      match store buf (snd r) with
      | Some buf' => ret (fst r, Some buf')
      | None => undefined BufferOverrun
      end
  end.

Definition GetDllDirectoryW (nBufferLength : DWORD)
    (lpBuffer : option (list WCHAR)) : M (DWORD * option (list WCHAR)) :=
  r <- os_call (call_GetDllDirectoryW nBufferLength (is_null lpBuffer))
               (os_GetDllDirectoryW nBufferLength) ;;
  match lpBuffer with
  | None => ret (fst r, None)
  | Some buf =>
      match store buf (snd r) with
      | Some buf' => ret (fst r, Some buf')
      | None => undefined BufferOverrun
      end
  end.

Definition SetDllDirectoryA (lpPathName : list CHAR) : M unit :=
  os_call (call_SetDllDirectoryA lpPathName)
          (fun w => (tt, os_SetDllDirectoryA lpPathName w)).

Definition SetDllDirectoryW (lpPathName : list WCHAR) : M unit :=
  os_call (call_SetDllDirectoryW lpPathName)
          (fun w => (tt, os_SetDllDirectoryW lpPathName w)).

Definition LoadLibraryA (lpLibFileName : list CHAR) : M HMODULE :=
  os_call (call_LoadLibraryA lpLibFileName) (os_LoadLibraryA lpLibFileName).

Definition LoadLibraryW (lpLibFileName : list WCHAR) : M HMODULE :=
  os_call (call_LoadLibraryW lpLibFileName) (os_LoadLibraryW lpLibFileName).

Definition FreeLibrary (hLibModule : HMODULE) : M unit :=
  os_call (call_FreeLibrary hLibModule)
          (fun w => (tt, os_FreeLibrary hLibModule w)).

Definition GetProcAddress (hModule : HMODULE) (lpProcName : list CHAR)
  : M FARPROC :=
  os_call (call_GetProcAddress hModule lpProcName)
          (os_GetProcAddress hModule lpProcName).

Definition GetLastError : M DWORD :=
  os_call call_GetLastError (fun w => (os_GetLastError w, w)).

Definition _getcwd (maxlen : nat) : M (option (list CHAR)) :=
  os_call (call_getcwd maxlen) (fun w => (os_getcwd maxlen w, w)).

(** The generic names [GetDllDirectory(n, NULL)] and
    [SetDllDirectory(TEXT(""))] as <windows.h> resolves them. *)
Definition GetDllDirectory_NULL (nBufferLength : DWORD) : M DWORD :=
  if UNICODE
  then r <- GetDllDirectoryW nBufferLength None ;; ret (fst r)
  else r <- GetDllDirectoryA nBufferLength None ;; ret (fst r).

Definition SetDllDirectory_TEXT_empty : M unit :=
  if UNICODE then SetDllDirectoryW [] else SetDllDirectoryA [].

(** [&v.front()]: defined for a non-empty vector only. *)
Definition front {C : Type} (v : list C) : M unit :=
  match v with
  | [] => undefined EmptyFront
  | _ :: _ => ret tt
  end.

(** Construction of a [std::basic_string] from a pointer to the buffer. *)
Definition string_at {C : Type} (is_nul : C -> bool) (buf : list C)
  : M (list C) :=
  match c_string is_nul buf with
  | Some s => ret s
  | None => undefined UnterminatedString
  end.

Definition get_shared_object : M HMODULE :=
  fun s => Returned (shared_object s) s.

Definition set_shared_object (h : HMODULE) : M unit :=
  fun s => Returned tt (mkState (world s) (calls s) h).

(** ** class SharedObjectLoader *)

Definition ExcludeCurrentDirectory : M unit :=
  n <- GetDllDirectory_NULL 0%N ;;
  if (n <=? 1)%N then SetDllDirectory_TEXT_empty else ret tt.

Definition IncludePluginDirectoryA (path : LPCSTR) : M (list CHAR) :=
  r <- GetDllDirectoryW 0%N None ;;
  let nBufferLength := fst r in
  let lpBuffer := resize NUL [] (N.to_nat nBufferLength) in
  front lpBuffer ;;;
  r <- GetDllDirectoryA nBufferLength (Some lpBuffer) ;;
  let lpBuffer := match snd r with Some b => b | None => lpBuffer end in
  let dirname := GetDirnameA path in
  (if negb (Nat.eqb (length dirname) 0)
   then SetDllDirectoryA dirname
   else ret tt) ;;;
  front lpBuffer ;;;
  string_at is_NUL lpBuffer.

Definition IncludePluginDirectoryW (path : LPCWSTR) : M (list WCHAR) :=
  r <- GetDllDirectoryW 0%N None ;;
  let nBufferLength := fst r in
  let lpBuffer := resize WNUL [] (N.to_nat nBufferLength) in
  front lpBuffer ;;;
  r <- GetDllDirectoryW nBufferLength (Some lpBuffer) ;;
  let lpBuffer := match snd r with Some b => b | None => lpBuffer end in
  let dirname := GetDirnameW path in
  (if negb (Nat.eqb (length dirname) 0)
   then SetDllDirectoryW dirname
   else ret tt) ;;;
  front lpBuffer ;;;
  string_at is_WNUL lpBuffer.

(** [explicit SharedObjectLoader(LPCWSTR pluginName)] *)
Definition SharedObjectLoaderW (pluginName : LPCWSTR) : M unit :=
  ExcludeCurrentDirectory ;;;
  oldDir <- IncludePluginDirectoryW pluginName ;;
  h <- LoadLibraryW pluginName ;;
  set_shared_object h ;;;
  SetDllDirectoryW oldDir ;;;
  so <- get_shared_object ;;
  if (so =? 0)%N then
    code <- GetLastError ;;
    cwd <- _getcwd 1024 ;;
    THROW_IE_EXCEPTION
      [Text (lit "Cannot load library '");
       Text (wStringtoMBCSstringChar pluginName);
       Text (lit "': "); Number code;
       Text (lit " from cwd: "); CharPtr cwd]
  else ret tt.

(** [explicit SharedObjectLoader(LPCSTR pluginName)] *)
Definition SharedObjectLoaderA (pluginName : LPCSTR) : M unit :=
  ExcludeCurrentDirectory ;;;
  oldDir <- IncludePluginDirectoryA pluginName ;;
  h <- LoadLibraryA pluginName ;;
  set_shared_object h ;;;
  SetDllDirectoryA oldDir ;;;
  so <- get_shared_object ;;
  if (so =? 0)%N then
    code <- GetLastError ;;
    cwd <- _getcwd 1024 ;;
    THROW_IE_EXCEPTION
      [Text (lit "Cannot load library '");
       Text pluginName;
       Text (lit "': "); Number code;
       Text (lit " from cwd: "); CharPtr cwd]
  else ret tt.

(** [~SharedObjectLoader()] *)
Definition SharedObjectLoader_dtor : M unit :=
  so <- get_shared_object ;;
  FreeLibrary so.

(** [void* get_symbol(const char* symbolName) const] *)
Definition get_symbol (symbolName : LPCSTR) : M FARPROC :=
  so <- get_shared_object ;;
  (if (so =? 0)%N then
     THROW_IE_EXCEPTION
       [Text (lit "Cannot get '"); Text symbolName;
        Text (lit "' content from unknown library!")]
   else ret tt) ;;;
  so <- get_shared_object ;;
  procAddr <- GetProcAddress so symbolName ;;
  if (procAddr =? 0)%N then
    code <- GetLastError ;;
    THROW_IE_EXCEPTION
      [Text (lit "GetProcAddress cannot locate method '"); Text symbolName;
       Text (lit "': "); Number code]
  else ret procAddr.

(** ** A client of the public interface *)

(** [try { m } catch (const InferenceEngineException& e) { }] *)
Definition try_catch {A : Type} (m : M A)
  : M (A + InferenceEngineException) :=
  fun s =>
    match m s with
    | Returned a s' => Returned (inl a) s'
    | Threw e s' => Returned (inr e) s'
    | Undefined u => Undefined u
    end.

(** A sequence of symbol look-ups on the loader at hand, each one guarded
    by the client. *)
Fixpoint get_symbols (names : list LPCSTR)
  : M (list (FARPROC + InferenceEngineException)) :=
  match names with
  | [] => ret []
  | name :: names' =>
      r <- try_catch (get_symbol name) ;;
      rs <- get_symbols names' ;;
      ret (r :: rs)
  end.

(** The life of one loader object in a block scope:
    [{ SharedObjectLoader so(pluginName); ...look-ups...; }]. An exception
    that leaves the constructor leaves the block as well: there is no
    object, and the destructor does not run. Otherwise the destructor runs
    when the block is left. *)
Definition scoped_loader (pluginName : LPCSTR) (names : list LPCSTR)
  : M (list (FARPROC + InferenceEngineException)) :=
  SharedObjectLoaderA pluginName ;;;
  rs <- get_symbols names ;;
  SharedObjectLoader_dtor ;;;
  ret rs.

(** The calls a computation adds to the log of [s]. *)
Definition new_calls {A : Type} (m : M A) (s : State) : list Call :=
  match m s with
  | Returned _ s' | Threw _ s' => skipn (length (calls s)) (calls s')
  | Undefined _ => []
  end.

(** ** Vocabulary of the statements *)

(** The calls that read or write the DLL search directory. *)
Definition is_directory_call (c : Call) : bool :=
  match c with
  | call_GetDllDirectoryA _ _ | call_GetDllDirectoryW _ _
  | call_SetDllDirectoryA _ | call_SetDllDirectoryW _ => true
  | _ => false
  end.

Definition is_FreeLibrary (c : Call) : bool :=
  match c with call_FreeLibrary _ => true | _ => false end.

Definition count_FreeLibrary (l : list Call) : nat :=
  length (filter is_FreeLibrary l).

(** A computation that never leaves by exception, never changes the data
    member [shared_object] and only adds directory calls to the log. *)
Definition quiet {A : Type} (m : M A) : Prop :=
  forall s,
    match m s with
    | Returned _ s' =>
        shared_object s' = shared_object s /\
        exists l, calls s' = calls s ++ l /\
                  forallb is_directory_call l = true
    | Threw _ _ => False
    | Undefined _ => True
    end.

(** The state a computation ends in, by return or by exception. *)
Definition final_state {A : Type} (o : Outcome A) : option State :=
  match o with
  | Returned _ s' | Threw _ s' => Some s'
  | Undefined _ => None
  end.

(** The messages of the exceptions [get_symbol] raises. *)
Definition lookup_error (symbolName : LPCSTR) : InferenceEngineException :=
  [Text (lit "Cannot get '"); Text symbolName;
   Text (lit "' content from unknown library!")].

Definition symbol_error (symbolName : LPCSTR) (code : DWORD)
  : InferenceEngineException :=
  [Text (lit "GetProcAddress cannot locate method '"); Text symbolName;
   Text (lit "': "); Number code].

(** The generic directory entry points as [UNICODE] resolves them: the OS
    functions behind [GetDllDirectory(n, NULL)] and
    [SetDllDirectory(TEXT(""))], and their entries in the call log. *)
Definition os_GetDllDirectory_NULL (n : DWORD) (w : World) : DWORD * World :=
  if UNICODE
  then (fst (fst (os_GetDllDirectoryW n w)), snd (os_GetDllDirectoryW n w))
  else (fst (fst (os_GetDllDirectoryA n w)), snd (os_GetDllDirectoryA n w)).

Definition os_SetDllDirectory_TEXT_empty (w : World) : World :=
  if UNICODE then os_SetDllDirectoryW [] w else os_SetDllDirectoryA [] w.

Definition call_GetDllDirectory_NULL (n : DWORD) : Call :=
  if UNICODE then call_GetDllDirectoryW n true else call_GetDllDirectoryA n true.

Definition call_SetDllDirectory_TEXT_empty : Call :=
  if UNICODE then call_SetDllDirectoryW [] else call_SetDllDirectoryA [].

(** The part of the narrow constructor that precedes the load. *)
Definition before_load (pluginName : LPCSTR) : M (list CHAR) :=
  ExcludeCurrentDirectory ;;; IncludePluginDirectoryA pluginName.

(** The message of the exception a failed load raises. *)
Definition load_error (pluginName : LPCSTR) (code : DWORD)
    (cwd : option (list CHAR)) : InferenceEngineException :=
  [Text (lit "Cannot load library '"); Text pluginName;
   Text (lit "': "); Number code; Text (lit " from cwd: "); CharPtr cwd].

End Loader.

Arguments State World : clear implicits.
Arguments Outcome World A : clear implicits.
Arguments M World A : clear implicits.
Arguments Threw {World A} e s.
Arguments Undefined {World A} u.

Notation "x <- m ;; k" := (bind m (fun x => k))
  (at level 61, m at next level, right associativity).
Notation "m ;;; k" := (bind m (fun _ => k))
  (at level 61, right associativity).

(** ** What is assumed of the OS where a property depends on it *)

Definition no_NUL (d : list CHAR) : Prop := ~ In NUL d.

Definition or_empty {C : Type} (d : option (list C)) : list C :=
  match d with Some d => d | None => [] end.

(** The semantics of the process-wide DLL search directory, as documented
    for [GetDllDirectory] and [SetDllDirectory]. [dll_directory w] is the
    directory configured in the OS state [w]: [None] when none was ever set
    (the default search order, which looks into the current directory),
    [Some []] when it was set to the empty string (the current directory is
    excluded from the search), [Some d] otherwise.

    - a configured directory is a C string;
    - [GetDllDirectoryA] and [GetDllDirectoryW] do not change the
      directory; a directory that was never set reads as the empty string;
    - [GetDllDirectoryA(n, buf)] stores the directory and its NUL and
      returns the length when the buffer has room for them;
    - [GetDllDirectoryA(0, NULL)] returns the size that is needed, NUL
      included;
    - [GetDllDirectoryW(0, NULL)] reports the needed size likewise: the
      narrow and the wide form of a directory have the same length, as
      they do in a single-byte code page;
    - [SetDllDirectoryA(d)] makes [d] the directory, and so does
      [SetDllDirectoryW(L"")] for the empty string. *)
Class DllDirectoryLaws {World : Type} (os : Win32 World)
    (dll_directory : World -> option (list CHAR)) : Prop := {
  dir_is_c_string :
    forall w d, dll_directory w = Some d -> no_NUL d;
  GetDllDirectoryA_frame :
    forall n w, dll_directory (snd (os_GetDllDirectoryA n w)) = dll_directory w;
  GetDllDirectoryA_fits :
    forall n w, let d := or_empty (dll_directory w) in
      (N.of_nat (length d) < n)%N ->
      fst (os_GetDllDirectoryA n w) = (N.of_nat (length d), d ++ [NUL]);
  GetDllDirectoryA_size :
    forall w, let d := or_empty (dll_directory w) in
      fst (fst (os_GetDllDirectoryA 0%N w)) = (N.of_nat (length d) + 1)%N;
  GetDllDirectoryW_frame :
    forall n w, dll_directory (snd (os_GetDllDirectoryW n w)) = dll_directory w;
  GetDllDirectoryW_size :
    forall w, let d := or_empty (dll_directory w) in
      fst (fst (os_GetDllDirectoryW 0%N w)) = (N.of_nat (length d) + 1)%N;
  SetDllDirectoryA_sets :
    forall d w, no_NUL d -> dll_directory (os_SetDllDirectoryA d w) = Some d;
  SetDllDirectoryW_empty :
    forall w, dll_directory (os_SetDllDirectoryW [] w) = Some []
}.

(** A directory that is not set and one that is set to the empty string
    are the two that [GetDllDirectory] cannot tell apart. *)
Definition unset_or_empty (d : option (list CHAR)) : bool :=
  match d with
  | None | Some [] => true
  | Some (_ :: _) => false
  end.

(** The directory [ExcludeCurrentDirectory] leaves behind. *)
Definition excluded (d : option (list CHAR)) : option (list CHAR) :=
  if unset_or_empty d then Some [] else d.




(** ** A reference operating system *)

(** A small executable OS on which the loader can be run. It follows the
    documented behaviour of the entry points: one process-wide DLL
    directory, a last-error code, a current directory, a table of the
    module images on disk and the list of the handles that are loaded. *)
Module RefOS.

Record Image : Type := mkImage {
  img_path : list CHAR;                      (* where the file is *)
  img_handle : HMODULE;                      (* the handle a load returns *)
  img_exports : list (list CHAR * FARPROC);  (* exported names *)
  img_imports : list (list CHAR)             (* file names of the DLLs it needs *)
}.

Record World : Type := mkWorld {
  dir : option (list CHAR);
  last_error : DWORD;
  cwd : list CHAR;
  installed : list Image;
  loaded : list HMODULE
}.

Definition set_dir (d : option (list CHAR)) (w : World) : World :=
  mkWorld d (last_error w) (cwd w) (installed w) (loaded w).

Definition set_last_error (e : DWORD) (w : World) : World :=
  mkWorld (dir w) e (cwd w) (installed w) (loaded w).

Definition set_loaded (l : list HMODULE) (w : World) : World :=
  mkWorld (dir w) (last_error w) (cwd w) (installed w) l.

(** The characters of a stored array that make up its C string. *)
Fixpoint c_prefix (s : list CHAR) : list CHAR :=
  match s with
  | [] => []
  | x :: s' => if is_NUL x then [] else x :: c_prefix s'
  end.

Definition dll_directory (w : World) : option (list CHAR) :=
  match dir w with Some d => Some (c_prefix d) | None => None end.

(** The process code page: how the [W] entry points translate their
    strings from and to the stored (narrow) form. *)
Record CodePage : Type := mkCodePage {
  MultiByteToWideChar : list CHAR -> list WCHAR;
  WideCharToMultiByte : list WCHAR -> list CHAR
}.

Definition narrow (c : WCHAR) : CHAR := ascii_of_N c.

(** A single-byte code page: one byte for every character. *)
Definition single_byte : CodePage :=
  mkCodePage (map wchar_of_char) (map narrow).

(** A double-byte code page in the manner of code page 932: a byte from
    0x81 on leads a character of two bytes, the other bytes stand for
    themselves. Only the lengths matter here; the wide character of a
    two-byte sequence is taken to be the number the two bytes spell. *)
Definition is_lead_byte (c : CHAR) : bool := (129 <=? N_of_ascii c)%N.

Fixpoint dbcs_decode (s : list CHAR) : list WCHAR :=
  match s with
  | [] => []
  | c :: s' =>
      if is_lead_byte c then
        match s' with
        | t :: s'' => (256 * N_of_ascii c + N_of_ascii t)%N :: dbcs_decode s''
        | [] => [N_of_ascii c]
        end
      else N_of_ascii c :: dbcs_decode s'
  end.

Definition dbcs_encode_char (c : WCHAR) : list CHAR :=
  if (c <? 256)%N then [ascii_of_N c]
  else [ascii_of_N (c / 256); ascii_of_N (c mod 256)].

Definition double_byte : CodePage :=
  mkCodePage dbcs_decode (flat_map dbcs_encode_char).

Fixpoint str_eqb (a b : list CHAR) : bool :=
  match a, b with
  | [], [] => true
  | x :: a', y :: b' => Ascii.eqb x y && str_eqb a' b'
  | _, _ => false
  end.

Definition ERROR_INVALID_HANDLE : DWORD := 6%N.
Definition ERROR_MOD_NOT_FOUND : DWORD := 126%N.
Definition ERROR_PROC_NOT_FOUND : DWORD := 127%N.

Definition GetDllDirectoryA (n : DWORD) (w : World)
  : DWORD * list CHAR * World :=
  let d := or_empty (dll_directory w) in
  if (N.of_nat (length d) <? n)%N
  then (N.of_nat (length d), d ++ [NUL], w)
  else ((N.of_nat (length d) + 1)%N, if (n =? 0)%N then [] else [NUL], w).

Definition GetDllDirectoryW (cp : CodePage) (n : DWORD) (w : World)
  : DWORD * list WCHAR * World :=
  let d := MultiByteToWideChar cp (or_empty (dll_directory w)) in
  if (N.of_nat (length d) <? n)%N
  then (N.of_nat (length d), d ++ [WNUL], w)
  else ((N.of_nat (length d) + 1)%N, if (n =? 0)%N then [] else [WNUL], w).

Definition SetDllDirectoryA (d : list CHAR) (w : World) : World :=
  set_dir (Some d) w.

Definition SetDllDirectoryW (cp : CodePage) (d : list WCHAR) (w : World)
  : World :=
  set_dir (Some (WideCharToMultiByte cp d)) w.

Definition find_image (p : list CHAR) (w : World) : option Image :=
  find (fun i => str_eqb p (img_path i)) (installed w).

(** Where the DLLs a module imports are looked for: the configured DLL
    directory, and the current directory as long as no DLL directory was
    ever set. *)
Definition search_dirs (w : World) : list (list CHAR) :=
  match dll_directory w with
  | None => [cwd w]
  | Some [] => []
  | Some d => [d]
  end.

Definition import_found (w : World) (name : list CHAR) : bool :=
  existsb (fun d =>
             match find_image (d ++ [kPathSeparator] ++ name) w with
             | Some _ => true
             | None => false
             end)
          (search_dirs w).

Definition LoadLibraryA (p : list CHAR) (w : World) : HMODULE * World :=
  match find_image p w with
  | Some i =>
      if negb (img_handle i =? 0)%N && forallb (import_found w) (img_imports i)
      then (img_handle i, set_loaded (img_handle i :: loaded w) w)
      else (0%N, set_last_error ERROR_MOD_NOT_FOUND w)
  | None => (0%N, set_last_error ERROR_MOD_NOT_FOUND w)
  end.

Definition LoadLibraryW (cp : CodePage) (p : list WCHAR) (w : World)
  : HMODULE * World :=
  LoadLibraryA (WideCharToMultiByte cp p) w.

Fixpoint remove_one (h : HMODULE) (l : list HMODULE) : list HMODULE :=
  match l with
  | [] => []
  | x :: l' => if (x =? h)%N then l' else x :: remove_one h l'
  end.

Definition is_loaded (h : HMODULE) (w : World) : bool :=
  existsb (N.eqb h) (loaded w).

Definition FreeLibrary (h : HMODULE) (w : World) : World :=
  if is_loaded h w
  then set_loaded (remove_one h (loaded w)) w
  else set_last_error ERROR_INVALID_HANDLE w.

Definition GetProcAddress (h : HMODULE) (name : list CHAR) (w : World)
  : FARPROC * World :=
  let exported :=
    if is_loaded h w then
      match find (fun i => (img_handle i =? h)%N) (installed w) with
      | Some i =>
          match find (fun e => str_eqb name (fst e)) (img_exports i) with
          | Some e => snd e
          | None => 0%N
          end
      | None => 0%N
      end
    else 0%N in
  if (exported =? 0)%N
  then (0%N, set_last_error ERROR_PROC_NOT_FOUND w)
  else (exported, w).

Definition getcwd (maxlen : nat) (w : World) : option (list CHAR) :=
  if length (cwd w) <? maxlen then Some (cwd w) else None.

Definition os_with (cp : CodePage) : Win32 World := {|
  UNICODE := false;
  os_GetDllDirectoryA := GetDllDirectoryA;
  os_GetDllDirectoryW := GetDllDirectoryW cp;
  os_SetDllDirectoryA := SetDllDirectoryA;
  os_SetDllDirectoryW := SetDllDirectoryW cp;
  os_LoadLibraryA := LoadLibraryA;
  os_LoadLibraryW := LoadLibraryW cp;
  os_FreeLibrary := FreeLibrary;
  os_GetProcAddress := GetProcAddress;
  os_GetLastError := last_error;
  os_getcwd := getcwd;
  wStringtoMBCSstringChar := WideCharToMultiByte cp
|}.

(** The reference OS proper runs in a single-byte code page. *)
#[global] Instance os : Win32 World := os_with single_byte.

(** A disk with one plugin that imports a DLL lying next to it. *)
Definition plugin : Image :=
  mkImage (lit "C:\plugins\cpu\plugin.dll") 4096%N
          [(lit "CreatePluginEngine", 4112%N)] [lit "helper.dll"].

Definition helper : Image :=
  mkImage (lit "C:\plugins\cpu\helper.dll") 8192%N [] [].

(** A plugin without imports. *)
Definition simple : Image :=
  mkImage (lit "C:\plugins\simple.dll") 12288%N
          [(lit "CreatePluginEngine", 12304%N)] [].

(** A fresh process: no DLL directory was set, nothing is loaded. *)
Definition fresh : World :=
  mkWorld None 0%N (lit "C:\work") [plugin; helper; simple] [].

(** A process whose application has set a DLL directory with a character
    of two bytes in its name (0x83 0x76 in a double-byte code page). *)
Definition app_directory : list CHAR :=
  lit "C:\app\" ++ [ascii_of_N 131; ascii_of_N 118].

Definition configured : World := set_dir (Some app_directory) fresh.

Definition start (w : World) : State World := mkState w [] 0%N.

(** The process after [simple] was loaded, seen from the loader object that
    holds its handle. *)
Definition holding_simple : State World :=
  mkState (set_loaded [img_handle simple] fresh) [] (img_handle simple).

End RefOS.

(** ** The specification's parent directory *)

(** Written after the specification, to be compared with what the code
    computes: the parent directory of a path that contains a path separator
    is its prefix up to the LAST separator (the specification names no
    parent for a path without separator). [last_index is_c s] is the offset
    of the last character of [s] that satisfies [is_c]. *)
Fixpoint last_index {C : Type} (is_c : C -> bool) (s : list C) : option nat :=
  match s with
  | [] => None
  | x :: s' =>
      match last_index is_c s' with
      | Some i => Some (S i)
      | None => if is_c x then Some 0 else None
      end
  end.

Definition spec_parent_directory (path : list CHAR) : option (list CHAR) :=
  match last_index (Ascii.eqb kPathSeparator) path with
  | Some i => Some (firstn i path)
  | None => None
  end.

(** ** Vocabulary for the wide constructor and for the life of a module *)

(** The part of the wide constructor that precedes the load. *)
Definition before_loadW {World : Type} {os : Win32 World}
    (pluginName : LPCWSTR) : M World (list WCHAR) :=
  ExcludeCurrentDirectory ;;; IncludePluginDirectoryW pluginName.

(** The message of the exception a failed wide load raises. *)
Definition load_errorW {World : Type} {os : Win32 World}
    (pluginName : LPCWSTR) (code : DWORD) (cwd : option (list CHAR))
  : InferenceEngineException :=
  [Text (lit "Cannot load library '");
   Text (wStringtoMBCSstringChar pluginName);
   Text (lit "': "); Number code; Text (lit " from cwd: "); CharPtr cwd].

(** The characters of a buffer that precede its first NUL (all of them
    when there is none). *)
Fixpoint before_nul {C : Type} (is_nul : C -> bool) (buf : list C) : list C :=
  match buf with
  | [] => []
  | x :: buf' => if is_nul x then [] else x :: before_nul is_nul buf'
  end.

(** Whether a buffer of [n] elements holds a C string once the OS has
    stored [data] at its start: the data fit, and a NUL is among them or
    is left behind them. *)
Definition holds_c_string {C : Type} (is_nul : C -> bool) (n : nat)
    (data : list C) : bool :=
  (length data <=? n) && (existsb is_nul data || (length data <? n)).

(** The number of path separators of a narrow path. *)
Definition separators (path : list CHAR) : nat :=
  count_occ ascii_dec path kPathSeparator.

Definition no_WNUL (d : list WCHAR) : Prop := ~ In WNUL d.

(** The semantics of the DLL search directory as the wide constructor sees
    it. [dll_directoryW w] is the configured directory in its wide form.

    - a configured directory is a C string;
    - [GetDllDirectory(0, NULL)], in the variant <windows.h> selects,
      returns at most 1 exactly when the directory is not set or empty;
    - [GetDllDirectoryW(0, NULL)] returns the size that is needed, NUL
      included; neither changes the directory;
    - [GetDllDirectoryW(n, buf)] stores the directory and its NUL and
      returns the length when the buffer has room for them;
    - [SetDllDirectory(TEXT(""))] makes the empty string the directory;
    - [SetDllDirectoryW(d)] makes [d] the directory again when [d] is a
      directory the OS has reported. *)
Class WideDirectoryLaws {World : Type} (os : Win32 World)
    (dll_directoryW : World -> option (list WCHAR)) : Prop := {
  dirW_is_c_string :
    forall w d, dll_directoryW w = Some d -> no_WNUL d;
  GetDllDirectory_NULL_frame :
    forall w, dll_directoryW (snd (os_GetDllDirectory_NULL 0%N w))
              = dll_directoryW w;
  GetDllDirectory_NULL_small :
    forall w, (fst (os_GetDllDirectory_NULL 0%N w) <=? 1)%N = true
              <-> or_empty (dll_directoryW w) = [];
  SetDllDirectory_TEXT_empty_sets :
    forall w, dll_directoryW (os_SetDllDirectory_TEXT_empty w) = Some [];
  GetDllDirectoryW_frameW :
    forall n w, dll_directoryW (snd (os_GetDllDirectoryW n w))
                = dll_directoryW w;
  GetDllDirectoryW_sizeW :
    forall w, fst (fst (os_GetDllDirectoryW 0%N w))
              = (N.of_nat (length (or_empty (dll_directoryW w))) + 1)%N;
  GetDllDirectoryW_fits :
    forall n w, let d := or_empty (dll_directoryW w) in
      (N.of_nat (length d) < n)%N ->
      fst (os_GetDllDirectoryW n w) = (N.of_nat (length d), d ++ [WNUL]);
  SetDllDirectoryW_restores :
    forall w d w', dll_directoryW w = Some d ->
                   dll_directoryW (os_SetDllDirectoryW d w') = Some d
}.

(** The directory [ExcludeCurrentDirectory] leaves behind, wide form. *)
Definition excludedW (d : option (list WCHAR)) : option (list WCHAR) :=
  match d with
  | None | Some [] => Some []
  | Some (_ :: _) => d
  end.

(** The semantics of loading and freeing, as documented for [LoadLibrary]
    and [FreeLibrary]: every module has a reference count in the process.
    [ref_count w h] is the count of the module with handle [h].

    - a successful [LoadLibraryA] adds one to the count of the handle it
      returns, a failed one changes no count;
    - [FreeLibrary(h)] takes one from the count of [h] when it is positive;
    - the directory entry points and [GetProcAddress] change no count. *)
Class ModuleLaws {World : Type} (os : Win32 World)
    (ref_count : World -> HMODULE -> nat) : Prop := {
  LoadLibraryA_counts :
    forall p w h,
      ref_count (snd (os_LoadLibraryA p w)) h
      = if negb (fst (os_LoadLibraryA p w) =? 0)%N
           && (h =? fst (os_LoadLibraryA p w))%N
        then S (ref_count w h) else ref_count w h;
  FreeLibrary_counts :
    forall h0 w h,
      0 < ref_count w h0 ->
      ref_count (os_FreeLibrary h0 w) h
      = if (h =? h0)%N then pred (ref_count w h) else ref_count w h;
  GetProcAddress_counts :
    forall h0 name w h,
      ref_count (snd (os_GetProcAddress h0 name w)) h = ref_count w h;
  GetDllDirectoryA_counts :
    forall n w h, ref_count (snd (os_GetDllDirectoryA n w)) h = ref_count w h;
  GetDllDirectoryW_counts :
    forall n w h, ref_count (snd (os_GetDllDirectoryW n w)) h = ref_count w h;
  SetDllDirectoryA_counts :
    forall d w h, ref_count (os_SetDllDirectoryA d w) h = ref_count w h;
  SetDllDirectoryW_counts :
    forall d w h, ref_count (os_SetDllDirectoryW d w) h = ref_count w h
}.

(** A computation that changes no reference count, however it ends. *)
Definition keeps_counts {World : Type} (ref_count : World -> HMODULE -> nat)
    {A : Type} (m : M World A) : Prop :=
  forall s,
    match m s with
    | Returned _ s' | Threw _ s' =>
        forall h, ref_count (world s') h = ref_count (world s) h
    | Undefined _ => True
    end.


(** The wide form of the directory of the reference OS, and the reference
    count of a handle in it. *)
Definition RefOS_dll_directoryW (cp : RefOS.CodePage) (w : RefOS.World)
  : option (list WCHAR) :=
  match RefOS.dll_directory w with
  | Some d => Some (RefOS.MultiByteToWideChar cp d)
  | None => None
  end.

Definition RefOS_ref_count (w : RefOS.World) (h : HMODULE) : nat :=
  count_occ N.eq_dec (RefOS.loaded w) h.

(** A code page that loses nothing of a narrow string: the wide form of a
    C string is a C string, it is empty only for the empty string, and it
    translates back to the string it came from. *)
Definition faithful (cp : RefOS.CodePage) : Prop :=
  (forall x, no_NUL x ->
             RefOS.WideCharToMultiByte cp (RefOS.MultiByteToWideChar cp x) = x) /\
  (forall x, no_NUL x -> no_WNUL (RefOS.MultiByteToWideChar cp x)) /\
  (forall x, RefOS.MultiByteToWideChar cp x = [] <-> x = []).

(** * Properties *)

(** ** C strings *)

Lemma kPathSeparator_not_NUL : Ascii.eqb kPathSeparator NUL = false.
Proof. reflexivity. Qed.

(** [strchr] finds nothing exactly when the character does not occur. *)
Lemma strchr_None (s : list CHAR) (c : CHAR) :
  Ascii.eqb c NUL = false ->
  (strchr s c = None <-> ~ In c s).
Proof.
  intros Hc. induction s as [|x s IH]; simpl.
  - rewrite Hc. tauto.
  - destruct (Ascii.eqb_spec x c) as [->|Hx].
    + split; [discriminate | intros H; exfalso; apply H; now left].
    + destruct (strchr s c) as [i|].
      * split; [discriminate|].
        intros H. exfalso. destruct IH as [_ IH].
        assert (~ In c s) as Hn by (intros Hin; apply H; now right).
        specialize (IH Hn). discriminate.
      * split; [|reflexivity]. intros _ [->|Hin]; [now apply Hx|].
        now apply IH.
Qed.

(** [strchr] returns the offset of the FIRST occurrence: the character is at
    that offset and does not occur before it. *)
Lemma strchr_Some (s : list CHAR) (c : CHAR) (i : nat) :
  Ascii.eqb c NUL = false ->
  strchr s c = Some i ->
  nth_error s i = Some c /\ ~ In c (firstn i s).
Proof.
  intros Hc. revert i. induction s as [|x s IH]; simpl; intros i H.
  - rewrite Hc in H. discriminate.
  - destruct (Ascii.eqb_spec x c) as [->|Hx].
    + injection H as <-. simpl. tauto.
    + destruct (strchr s c) as [j|]; [|discriminate].
      injection H as <-. destruct (IH j eq_refl) as [Hn Hf].
      simpl. split; [exact Hn|]. intros [E|Hin]; [now apply Hx|now apply Hf].
Qed.

(** [wcsrchr] returns the offset of the LAST occurrence. *)
Lemma wcsrchr_last_index (s : list WCHAR) (c : WCHAR) :
  N.eqb c WNUL = false ->
  wcsrchr s c = last_index (N.eqb c) s.
Proof.
  intros Hc. induction s as [|x s IH]; simpl.
  - now rewrite Hc.
  - rewrite IH. destruct (last_index (N.eqb c) s); [reflexivity|].
    now rewrite N.eqb_sym.
Qed.

Lemma wchar_of_char_inj (a b : CHAR) :
  wchar_of_char a = wchar_of_char b -> a = b.
Proof.
  unfold wchar_of_char. intros H.
  rewrite <- (ascii_N_embedding a), <- (ascii_N_embedding b). now rewrite H.
Qed.

Lemma last_index_widen (c : CHAR) (s : list CHAR) :
  last_index (N.eqb (wchar_of_char c)) (map wchar_of_char s)
  = last_index (Ascii.eqb c) s.
Proof.
  induction s as [|x s IH]; simpl; [reflexivity|].
  rewrite IH. destruct (last_index (Ascii.eqb c) s); [reflexivity|].
  destruct (Ascii.eqb_spec c x) as [->|Hx].
  - now rewrite N.eqb_refl.
  - destruct (N.eqb_spec (wchar_of_char c) (wchar_of_char x)) as [E|_];
      [|reflexivity].
    exfalso. now apply Hx, wchar_of_char_inj.
Qed.

(** The wide variant computes the specification's parent directory. *)
Lemma GetDirnameW_is_parent_directory (path parent : list CHAR) :
  spec_parent_directory path = Some parent ->
  GetDirnameW (map wchar_of_char path) = map wchar_of_char parent.
Proof.
  unfold GetDirnameW, FindLastPathSeparatorW, spec_parent_directory, substr0.
  rewrite wcsrchr_last_index by reflexivity.
  rewrite last_index_widen.
  destruct (last_index (Ascii.eqb kPathSeparator) path) as [i|];
    [|discriminate].
  intros H. injection H as <-. now rewrite firstn_map.
Qed.

Lemma last_index_None_inv {C : Type} (is_c : C -> bool) (s : list C) :
  last_index is_c s = None -> forall x, In x s -> is_c x = false.
Proof.
  induction s as [|y s IH]; intros E x Hin; [contradiction|].
  cbn [last_index] in E.
  destruct (last_index is_c s); [discriminate|].
  destruct (is_c y) eqn:Ey; [discriminate|].
  destruct Hin as [<-|Hin]; [exact Ey | now apply IH].
Qed.

(** Every path with a separator has a parent directory. *)
Lemma spec_parent_directory_defined (path : list CHAR) :
  In kPathSeparator path ->
  exists parent, spec_parent_directory path = Some parent.
Proof.
  intros Hin. unfold spec_parent_directory.
  destruct (last_index (Ascii.eqb kPathSeparator) path) as [i|] eqn:E;
    [eauto|].
  pose proof (last_index_None_inv _ _ E _ Hin) as H.
  now rewrite Ascii.eqb_refl in H.
Qed.

(** The narrow variant returns the prefix that ends before the FIRST
    separator. *)
Lemma GetDirnameA_first_separator (path : list CHAR) :
  In kPathSeparator path ->
  exists rest,
    path = GetDirnameA path ++ kPathSeparator :: rest /\
    ~ In kPathSeparator (GetDirnameA path).
Proof.
  intros Hin. unfold GetDirnameA, FindLastPathSeparatorA, substr0.
  destruct (strchr path kPathSeparator) as [i|] eqn:E.
  - destruct (@strchr_Some path _ _ kPathSeparator_not_NUL E) as [Hn Hf].
    exists (skipn (S i) path). split; [|exact Hf].
    rewrite <- (firstn_skipn i path) at 1. f_equal.
    clear E Hf Hin. revert i Hn.
    induction path as [|x p IH]; intros [|i] Hn; simpl in *;
      try discriminate.
    + now injection Hn as ->.
    + now apply IH.
  - exfalso. now apply (@strchr_None path _ kPathSeparator_not_NUL).
Qed.

Lemma last_index_split {C : Type} (is_c : C -> bool) (s : list C) (i : nat) :
  last_index is_c s = Some i ->
  exists x rest,
    s = firstn i s ++ x :: rest /\ is_c x = true /\
    forall y, In y rest -> is_c y = false.
Proof.
  revert i. induction s as [|y s IH]; intros i E; [discriminate|].
  cbn [last_index] in E.
  destruct (last_index is_c s) as [j|] eqn:Ej.
  - injection E as <-. destruct (IH j eq_refl) as (x & rest & Hs & Hx & Hr).
    exists x, rest. simpl. split; [now rewrite <- Hs|]. now split.
  - destruct (is_c y) eqn:Ey; [|discriminate]. injection E as <-.
    exists y, s. simpl. split; [reflexivity|]. split; [exact Ey|].
    now apply last_index_None_inv.
Qed.

Lemma strchr_first (pre rest : list CHAR) (c : CHAR) :
  ~ In c pre -> strchr (pre ++ c :: rest) c = Some (length pre).
Proof.
  induction pre as [|x pre IH]; simpl; intros H.
  - now rewrite Ascii.eqb_refl.
  - destruct (Ascii.eqb_spec x c) as [->|_]; [exfalso; apply H; now left|].
    rewrite IH; [reflexivity|]. intros Hin. apply H. now right.
Qed.

(** The narrow variant agrees with the specification's parent directory
    exactly when the path has a single separator, that is when the parent
    itself contains none. *)
Lemma GetDirnameA_is_parent_directory_iff (path parent : list CHAR) :
  spec_parent_directory path = Some parent ->
  (GetDirnameA path = parent <-> ~ In kPathSeparator parent).
Proof.
  unfold spec_parent_directory.
  destruct (last_index (Ascii.eqb kPathSeparator) path) as [i|] eqn:E;
    [|discriminate].
  intros H. injection H as <-.
  destruct (last_index_split _ _ E) as (x & rest & Hs & Hx & _).
  apply Ascii.eqb_eq in Hx. subst x.
  change (@firstn ascii i path) with (@firstn CHAR i path) in Hs.
  set (parent := firstn i path) in *. clearbody parent. clear E i.
  subst path.
  assert (In kPathSeparator (parent ++ kPathSeparator :: rest)) as Hin
      by (apply in_or_app; right; now left).
  split.
  - intros HA. rewrite <- HA.
    destruct (GetDirnameA_first_separator _ Hin) as (_ & _ & Hno).
    exact Hno.
  - intros Hno. unfold GetDirnameA, FindLastPathSeparatorA, substr0.
    cbv zeta.
    pose proof (@strchr_first parent rest kPathSeparator Hno) as Hf.
    unfold CHAR in *. rewrite Hf.
    rewrite firstn_app, firstn_all, Nat.sub_diag.
    simpl. now rewrite app_nil_r.
Qed.

(** Without separator both variants return the path itself. *)
Lemma GetDirnameA_no_separator (path : list CHAR) :
  ~ In kPathSeparator path -> GetDirnameA path = path.
Proof.
  intros H. unfold GetDirnameA, FindLastPathSeparatorA.
  now rewrite (proj2 (@strchr_None path _ kPathSeparator_not_NUL) H).
Qed.

Lemma last_index_None {C : Type} (is_c : C -> bool) (s : list C) :
  (forall x, In x s -> is_c x = false) -> last_index is_c s = None.
Proof.
  induction s as [|x s IH]; simpl; intros H; [reflexivity|].
  rewrite IH by (intros y Hy; apply H; now right).
  now rewrite (H x (or_introl eq_refl)).
Qed.

Lemma GetDirnameW_no_separator (path : list WCHAR) :
  ~ In (wchar_of_char kPathSeparator) path -> GetDirnameW path = path.
Proof.
  intros H. unfold GetDirnameW, FindLastPathSeparatorW.
  rewrite wcsrchr_last_index by reflexivity.
  rewrite last_index_None; [reflexivity|].
  intros x Hx. destruct (N.eqb_spec (wchar_of_char kPathSeparator) x) as [E|_];
    [|reflexivity].
  exfalso. apply H. now rewrite E.
Qed.

(** ** Buffers *)

Lemma resize_nil_length {C : Type} (z : C) (n : nat) :
  length (resize z [] n) = n.
Proof.
  unfold resize. rewrite firstn_nil. simpl.
  rewrite repeat_length. lia.
Qed.

Lemma store_length {C : Type} (buf data buf' : list C) :
  store buf data = Some buf' -> length buf' = length buf.
Proof.
  unfold store. destruct (Nat.leb_spec (length data) (length buf)) as [H|H];
    [|discriminate].
  intros E. injection E as <-.
  rewrite length_app, length_skipn. lia.
Qed.

Lemma c_string_terminated (d rest : list CHAR) :
  no_NUL d -> c_string is_NUL (d ++ NUL :: rest) = Some d.
Proof.
  unfold no_NUL. induction d as [|x d IH]; simpl; intros H; [reflexivity|].
  unfold is_NUL at 1. destruct (Ascii.eqb_spec x NUL) as [->|_].
  - exfalso. apply H. now left.
  - rewrite IH; [reflexivity|]. intros Hin. apply H. now right.
Qed.

Lemma c_string_no_NUL (buf s : list CHAR) :
  c_string is_NUL buf = Some s -> no_NUL s.
Proof.
  unfold no_NUL. revert s. induction buf as [|x buf IH]; simpl; intros s H;
    [discriminate|].
  unfold is_NUL in H at 1. destruct (Ascii.eqb_spec x NUL) as [->|Hx].
  - injection H as <-. simpl. tauto.
  - destruct (c_string is_NUL buf) as [s'|]; [|discriminate].
    injection H as <-. intros [E|Hin]; [now apply Hx|].
    now apply (IH s' eq_refl).
Qed.

(** ** The monad and the OS calls *)

Section Properties.

Context {World : Type} {os : Win32 World}.

Lemma quiet_ret {A : Type} (a : A) : @quiet World A (ret a).
Proof.
  intros s. simpl. split; [reflexivity|]. exists [].
  now rewrite app_nil_r.
Qed.

Lemma quiet_undefined {A : Type} (u : UB) : @quiet World A (undefined u).
Proof. intros s. exact I. Qed.

Lemma quiet_os_call {A : Type} (c : Call) (f : World -> A * World) :
  is_directory_call c = true -> quiet (os_call c f).
Proof.
  intros Hc s. unfold os_call. destruct (f (world s)) as [a w]. simpl.
  split; [reflexivity|]. exists [c]. simpl. now rewrite Hc.
Qed.

Lemma quiet_bind {A B : Type} (m : M World A) (k : A -> M World B) :
  quiet m -> (forall a, quiet (k a)) -> quiet (bind m k).
Proof.
  intros Hm Hk s. unfold bind. specialize (Hm s).
  destruct (m s) as [a s1|e s1|u]; [|contradiction|exact I].
  destruct Hm as [Hso [l [Hl Hd]]]. specialize (Hk a s1).
  destruct (k a s1) as [b s2|e s2|u]; [|contradiction|exact I].
  destruct Hk as [Hso' [l' [Hl' Hd']]]. split; [congruence|].
  exists (l ++ l'). rewrite Hl', Hl, app_assoc. split; [reflexivity|].
  now rewrite forallb_app, Hd, Hd'.
Qed.

Lemma quiet_front {C : Type} (v : list C) : @quiet World unit (front v).
Proof. destruct v; [apply quiet_undefined | apply quiet_ret]. Qed.

Lemma quiet_string_at {C : Type} (is_nul : C -> bool) (buf : list C) :
  @quiet World (list C) (string_at is_nul buf).
Proof.
  unfold string_at. destruct (c_string is_nul buf);
    [apply quiet_ret | apply quiet_undefined].
Qed.

Lemma quiet_GetDllDirectoryA n buf : quiet (GetDllDirectoryA n buf).
Proof.
  unfold GetDllDirectoryA. apply quiet_bind; [now apply quiet_os_call|].
  intros r. destruct buf as [buf|]; [|apply quiet_ret].
  destruct (store buf (snd r)); [apply quiet_ret | apply quiet_undefined].
Qed.

Lemma quiet_GetDllDirectoryW n buf : quiet (GetDllDirectoryW n buf).
Proof.
  unfold GetDllDirectoryW. apply quiet_bind; [now apply quiet_os_call|].
  intros r. destruct buf as [buf|]; [|apply quiet_ret].
  destruct (store buf (snd r)); [apply quiet_ret | apply quiet_undefined].
Qed.

Ltac quiet_step :=
  first
    [ apply quiet_GetDllDirectoryW | apply quiet_GetDllDirectoryA
    | apply quiet_front | apply quiet_string_at
    | apply quiet_ret | apply quiet_undefined
    | apply quiet_os_call; reflexivity
    | match goal with
      | |- quiet (if ?b then _ else _) => destruct b
      end
    | apply quiet_bind; [|intros ?] ].

Lemma quiet_ExcludeCurrentDirectory : quiet ExcludeCurrentDirectory.
Proof.
  unfold ExcludeCurrentDirectory, GetDllDirectory_NULL,
    SetDllDirectory_TEXT_empty.
  repeat quiet_step.
Qed.

Lemma quiet_IncludePluginDirectoryA path : quiet (IncludePluginDirectoryA path).
Proof. unfold IncludePluginDirectoryA. repeat quiet_step. Qed.

Lemma quiet_IncludePluginDirectoryW path : quiet (IncludePluginDirectoryW path).
Proof. unfold IncludePluginDirectoryW. repeat quiet_step. Qed.

Lemma quiet_before_load path : quiet (before_load path).
Proof.
  apply quiet_bind; [apply quiet_ExcludeCurrentDirectory|].
  intros _. apply quiet_IncludePluginDirectoryA.
Qed.

(** The narrow constructor, step by step after the load. *)
Lemma SharedObjectLoaderA_after_load (path : LPCSTR) (s : State World) :
  SharedObjectLoaderA path s =
  match before_load path s with
  | Returned oldDir s2 =>
      let h := fst (os_LoadLibraryA path (world s2)) in
      let w := os_SetDllDirectoryA oldDir
                 (snd (os_LoadLibraryA path (world s2))) in
      let l := calls s2 ++ [call_LoadLibraryA path]
                        ++ [call_SetDllDirectoryA oldDir] in
      if (h =? 0)%N
      then Threw (load_error path (os_GetLastError w) (os_getcwd 1024 w))
                 (mkState w (l ++ [call_GetLastError] ++ [call_getcwd 1024]) h)
      else Returned tt (mkState w l h)
  | Threw e s2 => Threw e s2
  | Undefined u => Undefined u
  end.
Proof.
  unfold SharedObjectLoaderA, before_load, bind.
  destruct (ExcludeCurrentDirectory s) as [[] s1|e s1|u]; try reflexivity.
  destruct (IncludePluginDirectoryA path s1) as [oldDir s2|e s2|u];
    try reflexivity.
  unfold LoadLibraryA, SetDllDirectoryA, GetLastError, _getcwd, os_call,
    set_shared_object, get_shared_object, THROW_IE_EXCEPTION, ret.
  destruct (os_LoadLibraryA path (world s2)) as [h w3]. simpl.
  destruct (h =? 0)%N; simpl; unfold load_error;
    repeat rewrite <- app_assoc; reflexivity.
Qed.

(** [ExcludeCurrentDirectory], step by step. *)
Lemma ExcludeCurrentDirectory_eq (s : State World) :
  ExcludeCurrentDirectory s =
  let r := os_GetDllDirectory_NULL 0%N (world s) in
  if (fst r <=? 1)%N
  then Returned tt
         (mkState (os_SetDllDirectory_TEXT_empty (snd r))
                  (calls s ++ [call_GetDllDirectory_NULL 0%N;
                               call_SetDllDirectory_TEXT_empty])
                  (shared_object s))
  else Returned tt
         (mkState (snd r) (calls s ++ [call_GetDllDirectory_NULL 0%N])
                  (shared_object s)).
Proof.
  unfold ExcludeCurrentDirectory, GetDllDirectory_NULL,
    SetDllDirectory_TEXT_empty, os_GetDllDirectory_NULL,
    os_SetDllDirectory_TEXT_empty, call_GetDllDirectory_NULL,
    call_SetDllDirectory_TEXT_empty, GetDllDirectoryW, GetDllDirectoryA,
    SetDllDirectoryW, SetDllDirectoryA, os_call, is_null, ret.
  unfold bind. cbv zeta.
  destruct UNICODE.
  - destruct (os_GetDllDirectoryW 0%N (world s)) as [[n d0] w1]. simpl.
    destruct (n <=? 1)%N; simpl; rewrite <- ?app_assoc; reflexivity.
  - destruct (os_GetDllDirectoryA 0%N (world s)) as [[n d0] w1]. simpl.
    destruct (n <=? 1)%N; simpl; rewrite <- ?app_assoc; reflexivity.
Qed.


(** ** Construction *)


(** When the load fails the narrow constructor leaves by exception. *)
Lemma SharedObjectLoaderA_load_fails (path : LPCSTR) (s s2 : State World)
    (oldDir : list CHAR) :
  before_load path s = Returned oldDir s2 ->
  fst (os_LoadLibraryA path (world s2)) = 0%N ->
  exists e s', SharedObjectLoaderA path s = Threw e s'.
Proof.
  intros Hb Hz. rewrite SharedObjectLoaderA_after_load, Hb. cbv zeta.
  rewrite Hz. simpl. eauto.
Qed.

(** A constructor that returns has stored a non-null handle. *)
Lemma SharedObjectLoaderA_returns_non_null (path : LPCSTR) (s s1 : State World) :
  SharedObjectLoaderA path s = Returned tt s1 -> shared_object s1 <> 0%N.
Proof.
  rewrite SharedObjectLoaderA_after_load.
  pose proof (quiet_before_load path s) as Hq.
  destruct (before_load path s) as [oldDir s2|e0 s2|u];
    [|contradiction|discriminate].
  cbv zeta.
  destruct (N.eqb_spec (fst (os_LoadLibraryA path (world s2))) 0) as [E0|N0];
    [discriminate|].
  intros H. injection H as <-. exact N0.
Qed.

(** The wide constructor likewise. *)
Lemma SharedObjectLoaderW_returns_non_null (path : LPCWSTR) (s s1 : State World) :
  SharedObjectLoaderW path s = Returned tt s1 -> shared_object s1 <> 0%N.
Proof.
  unfold SharedObjectLoaderW. unfold bind at 1.
  destruct (ExcludeCurrentDirectory s) as [[] t1|e t1|u]; try discriminate.
  unfold bind at 1.
  destruct (IncludePluginDirectoryW path t1) as [oldDir t2|e t2|u];
    try discriminate.
  unfold LoadLibraryW, SetDllDirectoryW, GetLastError, _getcwd, os_call,
    set_shared_object, get_shared_object, THROW_IE_EXCEPTION, ret.
  unfold bind.
  destruct (os_LoadLibraryW path (world t2)) as [h w3]. simpl.
  destruct (N.eqb_spec h 0) as [E0|N0]; simpl; [discriminate|].
  intros H. injection H as <-. exact N0.
Qed.

(** ** Symbol look-up *)

Lemma get_symbol_eq (symbolName : LPCSTR) (s : State World) :
  get_symbol symbolName s =
  let h := shared_object s in
  let p := fst (os_GetProcAddress h symbolName (world s)) in
  let w := snd (os_GetProcAddress h symbolName (world s)) in
  if (h =? 0)%N then Threw (lookup_error symbolName) s
  else if (p =? 0)%N
       then Threw (symbol_error symbolName (os_GetLastError w))
                  (mkState w (calls s ++ [call_GetProcAddress h symbolName;
                                          call_GetLastError]) h)
       else Returned p
                  (mkState w (calls s ++ [call_GetProcAddress h symbolName]) h).
Proof.
  unfold get_symbol, bind, get_shared_object, GetProcAddress, GetLastError,
    os_call, THROW_IE_EXCEPTION, ret. cbv zeta.
  destruct (shared_object s =? 0)%N; [reflexivity|].
  destruct (os_GetProcAddress (shared_object s) symbolName (world s)) as [p w].
  simpl. destruct (p =? 0)%N; simpl; [|reflexivity].
  now rewrite <- app_assoc.
Qed.

(** C3. [get_symbol] throws when the stored handle is null; otherwise it
    throws an exception carrying [GetLastError()] when [GetProcAddress]
    returns null, and returns the non-null address otherwise. In all three
    cases the data member [shared_object] is left as it was, and the only
    OS calls made are [GetProcAddress] and [GetLastError]. *)
Theorem get_symbol_cases (symbolName : LPCSTR) (s : State World) :
  let h := shared_object s in
  let p := fst (os_GetProcAddress h symbolName (world s)) in
  let w := snd (os_GetProcAddress h symbolName (world s)) in
  (h = 0%N ->
   get_symbol symbolName s = Threw (lookup_error symbolName) s) /\
  (h <> 0%N -> p = 0%N ->
   get_symbol symbolName s =
   Threw (symbol_error symbolName (os_GetLastError w))
         (mkState w (calls s ++ [call_GetProcAddress h symbolName;
                                 call_GetLastError]) h) /\
   In (Number (os_GetLastError w))
      (symbol_error symbolName (os_GetLastError w))) /\
  (h <> 0%N -> p <> 0%N ->
   get_symbol symbolName s =
   Returned p (mkState w (calls s ++ [call_GetProcAddress h symbolName]) h)) /\
  (exists s', final_state (get_symbol symbolName s) = Some s' /\
              shared_object s' = shared_object s).
Proof.
  cbv zeta. rewrite get_symbol_eq. cbv zeta.
  destruct (N.eqb_spec (shared_object s) 0) as [Eh|Nh].
  - repeat split; try (intros; contradiction); simpl; eauto.
  - destruct (N.eqb_spec
                (fst (os_GetProcAddress (shared_object s) symbolName (world s)))
                0) as [Ep|Np].
    + repeat split; try (intros; contradiction); simpl; eauto.
    + repeat split; try (intros; contradiction); simpl; eauto.
Qed.

(** ** The buffer of IncludePluginDirectory *)

(** [IncludePluginDirectoryA], step by step. *)
Lemma IncludePluginDirectoryA_eq (path : LPCSTR) (s : State World) :
  IncludePluginDirectoryA path s =
  let r1 := os_GetDllDirectoryW 0%N (world s) in
  let n := fst (fst r1) in
  let lpBuffer := resize NUL [] (N.to_nat n) in
  let r2 := os_GetDllDirectoryA n (snd r1) in
  let dirname := GetDirnameA path in
  let set := negb (length dirname =? 0) in
  match lpBuffer with
  | [] => Undefined EmptyFront
  | _ :: _ =>
      match store lpBuffer (snd (fst r2)) with
      | None => Undefined BufferOverrun
      | Some [] => Undefined EmptyFront
      | Some ((_ :: _) as lpBuffer') =>
          match c_string is_NUL lpBuffer' with
          | None => Undefined UnterminatedString
          | Some oldDir =>
              Returned oldDir
                (mkState
                   (if set then os_SetDllDirectoryA dirname (snd r2)
                    else snd r2)
                   (calls s ++ [call_GetDllDirectoryW 0%N true;
                                call_GetDllDirectoryA n false]
                            ++ (if set then [call_SetDllDirectoryA dirname]
                                else []))
                   (shared_object s))
          end
      end
  end.
Proof.
  unfold IncludePluginDirectoryA, GetDllDirectoryW, GetDllDirectoryA,
    SetDllDirectoryA, os_call, is_null, ret, string_at, undefined.
  unfold bind. cbv zeta.
  destruct (os_GetDllDirectoryW 0%N (world s)) as [[n d0] w1]. simpl.
  destruct (resize NUL [] (N.to_nat n)) as [|c0 buf]; [reflexivity|]. simpl.
  destruct (os_GetDllDirectoryA n w1) as [[r data] w2]. simpl.
  destruct (store (c0 :: buf) data) as [[|c1 buf']|]; simpl;
    [ destruct (negb _); reflexivity | | reflexivity ].
  destruct (negb _); simpl;
    (destruct (is_NUL c1); [|destruct (c_string is_NUL buf')]);
    simpl; rewrite <- ?app_assoc, ?app_nil_r; reflexivity.
Qed.

Lemma IncludePluginDirectoryW_eq (path : LPCWSTR) (s : State World) :
  IncludePluginDirectoryW path s =
  let r1 := os_GetDllDirectoryW 0%N (world s) in
  let n := fst (fst r1) in
  let lpBuffer := resize WNUL [] (N.to_nat n) in
  let r2 := os_GetDllDirectoryW n (snd r1) in
  let dirname := GetDirnameW path in
  let set := negb (length dirname =? 0) in
  match lpBuffer with
  | [] => Undefined EmptyFront
  | _ :: _ =>
      match store lpBuffer (snd (fst r2)) with
      | None => Undefined BufferOverrun
      | Some [] => Undefined EmptyFront
      | Some ((_ :: _) as lpBuffer') =>
          match c_string is_WNUL lpBuffer' with
          | None => Undefined UnterminatedString
          | Some oldDir =>
              Returned oldDir
                (mkState
                   (if set then os_SetDllDirectoryW dirname (snd r2)
                    else snd r2)
                   (calls s ++ [call_GetDllDirectoryW 0%N true;
                                call_GetDllDirectoryW n false]
                            ++ (if set then [call_SetDllDirectoryW dirname]
                                else []))
                   (shared_object s))
          end
      end
  end.
Proof.
  unfold IncludePluginDirectoryW, GetDllDirectoryW,
    SetDllDirectoryW, os_call, is_null, ret, string_at, undefined.
  unfold bind. cbv zeta.
  destruct (os_GetDllDirectoryW 0%N (world s)) as [[n d0] w1]. simpl.
  destruct (resize WNUL [] (N.to_nat n)) as [|c0 buf]; [reflexivity|]. simpl.
  destruct (os_GetDllDirectoryW n w1) as [[r data] w2]. simpl.
  destruct (store (c0 :: buf) data) as [[|c1 buf']|]; simpl;
    [ destruct (negb _); reflexivity | | reflexivity ].
  destruct (negb _); simpl;
    (destruct (is_WNUL c1); [|destruct (c_string is_WNUL buf')]);
    simpl; rewrite <- ?app_assoc, ?app_nil_r; reflexivity.
Qed.

(** The calls of a narrow constructor that comes to an end: the directory
    name, unless it is empty, goes to [SetDllDirectoryA] immediately before
    the load, and the saved directory immediately after it. *)
Lemma SharedObjectLoaderA_calls (path : LPCSTR) (s s' : State World) :
  final_state (SharedObjectLoaderA path s) = Some s' ->
  exists before oldDir after,
    calls s' = before
                 ++ (if negb (length (GetDirnameA path) =? 0)
                     then [call_SetDllDirectoryA (GetDirnameA path)]
                     else [])
                 ++ [call_LoadLibraryA path; call_SetDllDirectoryA oldDir]
                 ++ after /\
    (after = [] \/ after = [call_GetLastError; call_getcwd 1024]).
Proof.
  rewrite SharedObjectLoaderA_after_load. unfold before_load, bind.
  pose proof (quiet_ExcludeCurrentDirectory s) as Hq.
  destruct (ExcludeCurrentDirectory s) as [[] s1|e s1|u];
    [|contradiction|discriminate].
  clear Hq. rewrite IncludePluginDirectoryA_eq. cbv zeta.
  destruct (resize NUL [] _) as [|c0 buf]; [discriminate|].
  destruct (store (c0 :: buf) _) as [[|c1 buf']|]; try discriminate.
  destruct (c_string is_NUL (c1 :: buf')) as [oldDir|]; [|discriminate].
  set (n := fst (fst (os_GetDllDirectoryW 0%N (world s1)))).
  intros Hs'.
  exists (calls s1 ++ [call_GetDllDirectoryW 0%N true;
                       call_GetDllDirectoryA n false]), oldDir.
  destruct (fst (os_LoadLibraryA path _) =? 0)%N; simpl in Hs';
    injection Hs' as <-; simpl.
  - exists [call_GetLastError; call_getcwd 1024].
    split; [|now right]. now rewrite <- !app_assoc.
  - exists []. split; [|now left]. rewrite <- !app_assoc. simpl.
    now rewrite <- ?app_assoc.
Qed.

(** What [IncludePluginDirectoryA] has done when it returns. *)
Lemma IncludePluginDirectoryA_returned (path : LPCSTR) (s s2 : State World)
    (oldDir : list CHAR) :
  IncludePluginDirectoryA path s = Returned oldDir s2 ->
  let r1 := os_GetDllDirectoryW 0%N (world s) in
  let n := fst (fst r1) in
  let r2 := os_GetDllDirectoryA n (snd r1) in
  let dirname := GetDirnameA path in
  let set := negb (length dirname =? 0) in
  world s2 = (if set then os_SetDllDirectoryA dirname (snd r2) else snd r2) /\
  calls s2 = calls s ++ [call_GetDllDirectoryW 0%N true;
                         call_GetDllDirectoryA n false]
                     ++ (if set then [call_SetDllDirectoryA dirname] else []) /\
  shared_object s2 = shared_object s.
Proof.
  rewrite IncludePluginDirectoryA_eq. cbv zeta.
  destruct (resize NUL [] _) as [|c0 buf]; [discriminate|].
  destruct (store (c0 :: buf) _) as [[|c1 buf']|]; try discriminate.
  destruct (c_string is_NUL (c1 :: buf')) as [d|]; [|discriminate].
  intros H. injection H as _ <-. cbn [world calls shared_object]. auto.
Qed.

Lemma IncludePluginDirectoryW_returned (path : LPCWSTR) (s s2 : State World)
    (oldDir : list WCHAR) :
  IncludePluginDirectoryW path s = Returned oldDir s2 ->
  let r1 := os_GetDllDirectoryW 0%N (world s) in
  let n := fst (fst r1) in
  let r2 := os_GetDllDirectoryW n (snd r1) in
  let dirname := GetDirnameW path in
  let set := negb (length dirname =? 0) in
  world s2 = (if set then os_SetDllDirectoryW dirname (snd r2) else snd r2) /\
  calls s2 = calls s ++ [call_GetDllDirectoryW 0%N true;
                         call_GetDllDirectoryW n false]
                     ++ (if set then [call_SetDllDirectoryW dirname] else []) /\
  shared_object s2 = shared_object s.
Proof.
  rewrite IncludePluginDirectoryW_eq. cbv zeta.
  destruct (resize WNUL [] _) as [|c0 buf]; [discriminate|].
  destruct (store (c0 :: buf) _) as [[|c1 buf']|]; try discriminate.
  destruct (c_string is_WNUL (c1 :: buf')) as [d|]; [|discriminate].
  intros H. injection H as _ <-. cbn [world calls shared_object]. auto.
Qed.

(** The run of a narrow constructor that comes to an end: [s1] is the state
    after [ExcludeCurrentDirectory], [s2] the state in which [LoadLibraryA]
    is called, [oldDir] the directory [IncludePluginDirectoryA] saved. *)
Lemma SharedObjectLoaderA_trace (path : LPCSTR) (s s' : State World) :
  final_state (SharedObjectLoaderA path s) = Some s' ->
  exists s1 oldDir s2,
    ExcludeCurrentDirectory s = Returned tt s1 /\
    IncludePluginDirectoryA path s1 = Returned oldDir s2 /\
    let r3 := os_LoadLibraryA path (world s2) in
    world s' = os_SetDllDirectoryA oldDir (snd r3) /\
    shared_object s' = fst r3 /\
    calls s' = calls s2
                 ++ [call_LoadLibraryA path; call_SetDllDirectoryA oldDir]
                 ++ (if (fst r3 =? 0)%N
                     then [call_GetLastError; call_getcwd 1024] else []).
Proof.
  rewrite SharedObjectLoaderA_after_load. unfold before_load, bind.
  pose proof (quiet_ExcludeCurrentDirectory s) as Hq.
  destruct (ExcludeCurrentDirectory s) as [[] s1|e s1|u] eqn:E1;
    [|contradiction|discriminate].
  clear Hq. pose proof (quiet_IncludePluginDirectoryA path s1) as Hq.
  destruct (IncludePluginDirectoryA path s1) as [oldDir s2|e s2|u] eqn:E2;
    [|contradiction|discriminate].
  cbv zeta. intros Hs'. exists s1, oldDir, s2.
  split; [reflexivity|]. split; [exact E2|].
  destruct (fst (os_LoadLibraryA path (world s2)) =? 0)%N;
    cbn [final_state] in Hs'; injection Hs' as <-;
    cbn [world calls shared_object];
    (split; [reflexivity|]); (split; [reflexivity|]);
    rewrite <- ?app_assoc, ?app_nil_r; reflexivity.
Qed.

(** C10. When [GetDllDirectoryW(0, nullptr)] reports a length of at least 1
    the vector [lpBuffer] is not empty at either use of [lpBuffer.front()]:
    [IncludePluginDirectoryA] (and [IncludePluginDirectoryW]) do not end in
    the out-of-bounds access on an empty buffer. *)
Theorem lpBuffer_front_defined (s : State World) :
  (1 <= fst (fst (os_GetDllDirectoryW 0%N (world s))))%N ->
  (forall path, IncludePluginDirectoryA path s <> Undefined EmptyFront) /\
  (forall path, IncludePluginDirectoryW path s <> Undefined EmptyFront).
Proof.
  intros Hn. split; intros path.
  - rewrite IncludePluginDirectoryA_eq. cbv zeta.
    set (n := fst (fst (os_GetDllDirectoryW 0%N (world s)))) in *.
    pose proof (resize_nil_length NUL (N.to_nat n)) as Hlen.
    destruct (resize NUL [] (N.to_nat n)) as [|c0 buf];
      [simpl in Hlen; lia|].
    destruct (store (c0 :: buf) _) as [buf'|] eqn:Es; [|discriminate].
    apply store_length in Es.
    destruct buf' as [|c1 buf']; [discriminate|].
    destruct (c_string is_NUL (c1 :: buf')); discriminate.
  - rewrite IncludePluginDirectoryW_eq. cbv zeta.
    set (n := fst (fst (os_GetDllDirectoryW 0%N (world s)))) in *.
    pose proof (resize_nil_length WNUL (N.to_nat n)) as Hlen.
    destruct (resize WNUL [] (N.to_nat n)) as [|c0 buf];
      [simpl in Hlen; lia|].
    destruct (store (c0 :: buf) _) as [buf'|] eqn:Es; [|discriminate].
    apply store_length in Es.
    destruct buf' as [|c1 buf']; [discriminate|].
    destruct (c_string is_WNUL (c1 :: buf')); discriminate.
Qed.

(** The precondition of C10 is needed: an OS that reports the length 0
    sends [IncludePluginDirectoryA] into the access on the empty buffer. *)
Lemma lpBuffer_front_undefined (path : LPCSTR) (s : State World) :
  fst (fst (os_GetDllDirectoryW 0%N (world s))) = 0%N ->
  IncludePluginDirectoryA path s = Undefined EmptyFront.
Proof.
  intros Hn. rewrite IncludePluginDirectoryA_eq. cbv zeta.
  now rewrite Hn.
Qed.

End Properties.

(** ** The loader on an OS with the documented directory semantics *)

Section Lawful.

Context {World : Type} {os : Win32 World}.
Variable dll_directory : World -> option (list CHAR).
Hypothesis laws : DllDirectoryLaws os dll_directory.

Lemma no_NUL_or_empty (w : World) : no_NUL (or_empty (dll_directory w)).
Proof.
  destruct (dll_directory w) as [d|] eqn:E; simpl.
  - exact (@dir_is_c_string World os dll_directory laws w d E).
  - intros [].
Qed.

Lemma os_GetDllDirectory_NULL_lawful (w : World) :
  fst (os_GetDllDirectory_NULL 0%N w)
  = (N.of_nat (length (or_empty (dll_directory w))) + 1)%N /\
  dll_directory (snd (os_GetDllDirectory_NULL 0%N w)) = dll_directory w.
Proof.
  unfold os_GetDllDirectory_NULL. destruct UNICODE; simpl.
  - split; [apply (@GetDllDirectoryW_size World os dll_directory laws)
           | apply (@GetDllDirectoryW_frame World os dll_directory laws)].
  - split; [|apply (@GetDllDirectoryA_frame World os dll_directory laws)].
    apply (@GetDllDirectoryA_size World os dll_directory laws).
Qed.

Lemma os_SetDllDirectory_TEXT_empty_lawful (w : World) :
  dll_directory (os_SetDllDirectory_TEXT_empty w) = Some [].
Proof.
  unfold os_SetDllDirectory_TEXT_empty. destruct UNICODE.
  - apply (@SetDllDirectoryW_empty World os dll_directory laws).
  - apply (@SetDllDirectoryA_sets World os dll_directory laws). intros [].
Qed.

Lemma reported_size_le_1 (d : option (list CHAR)) :
  (N.of_nat (length (or_empty d)) + 1 <=? 1)%N = unset_or_empty d.
Proof.
  destruct d as [[|c d]|]; simpl; try reflexivity.
  apply N.leb_gt. lia.
Qed.

(** [ExcludeCurrentDirectory] always returns; it calls
    [SetDllDirectory("")] exactly when the directory is unset or empty, and
    leaves a directory that is set. *)
Lemma ExcludeCurrentDirectory_lawful (s : State World) :
  exists s1,
    ExcludeCurrentDirectory s = Returned tt s1 /\
    dll_directory (world s1) = excluded (dll_directory (world s)) /\
    shared_object s1 = shared_object s /\
    calls s1 = calls s ++ call_GetDllDirectory_NULL 0%N ::
                 (if unset_or_empty (dll_directory (world s))
                  then [call_SetDllDirectory_TEXT_empty] else []).
Proof.
  rewrite ExcludeCurrentDirectory_eq. cbv zeta.
  destruct (os_GetDllDirectory_NULL_lawful (world s)) as [Hn Hf].
  rewrite Hn, reported_size_le_1. unfold excluded.
  destruct (unset_or_empty (dll_directory (world s))).
  - eexists. split; [reflexivity|]. simpl.
    now rewrite os_SetDllDirectory_TEXT_empty_lawful.
  - eexists. split; [reflexivity|]. simpl. now rewrite Hf.
Qed.

Lemma excluded_is_set (d : option (list CHAR)) :
  excluded d = Some (or_empty (excluded d)).
Proof. now destruct d as [[|c d]|]. Qed.


(** [IncludePluginDirectoryA] always returns, with the directory that was
    configured when it was called (the empty string if there was none). *)
Lemma IncludePluginDirectoryA_lawful (path : LPCSTR) (s : State World) :
  let old := or_empty (dll_directory (world s)) in
  let dirname := GetDirnameA path in
  let set := negb (length dirname =? 0) in
  exists s2,
    IncludePluginDirectoryA path s = Returned old s2 /\
    shared_object s2 = shared_object s /\
    calls s2 = calls s ++ [call_GetDllDirectoryW 0%N true;
                           call_GetDllDirectoryA
                             (N.of_nat (length old) + 1)%N false]
                       ++ (if set then [call_SetDllDirectoryA dirname]
                           else []) /\
    (set = true -> no_NUL dirname ->
     dll_directory (world s2) = Some dirname) /\
    (set = false -> dll_directory (world s2) = dll_directory (world s)).
Proof.
  cbv zeta. rewrite IncludePluginDirectoryA_eq. cbv zeta.
  pose proof (@GetDllDirectoryW_size World os dll_directory laws
                (world s)) as Hn. cbv zeta in Hn.
  pose proof (@GetDllDirectoryW_frame World os dll_directory laws
                0%N (world s)) as Hf1.
  set (r1 := os_GetDllDirectoryW 0%N (world s)) in *.
  set (old := or_empty (dll_directory (world s))) in *.
  rewrite Hn.
  pose proof (@GetDllDirectoryA_fits World os dll_directory laws
                (N.of_nat (length old) + 1)%N (snd r1)) as Hfit.
  cbv zeta in Hfit. rewrite Hf1 in Hfit. fold old in Hfit.
  specialize (Hfit ltac:(lia)).
  pose proof (@GetDllDirectoryA_frame World os dll_directory laws
                (N.of_nat (length old) + 1)%N (snd r1)) as Hf2.
  set (r2 := os_GetDllDirectoryA (N.of_nat (length old) + 1)%N (snd r1)) in *.
  replace (snd (fst r2)) with (old ++ [NUL]) by now rewrite Hfit.
  replace (N.to_nat (N.of_nat (length old) + 1)) with (S (length old)) by lia.
  assert (store (resize NUL [] (S (length old))) (old ++ [NUL])
          = Some (old ++ [NUL])) as Hs.
  { unfold store. rewrite resize_nil_length, length_app. simpl.
    replace (length old + 1 <=? S (length old)) with true
      by (symmetry; apply Nat.leb_le; lia).
    rewrite skipn_all2; [now rewrite app_nil_r|].
    rewrite resize_nil_length. lia. }
  rewrite Hs. unfold resize. simpl.
  assert (c_string is_NUL (old ++ [NUL]) = Some old) as Hc
      by (apply c_string_terminated, no_NUL_or_empty).
  destruct (old ++ [NUL]) as [|c1 b1] eqn:Ed;
    [destruct old; discriminate|].
  rewrite Hc. eexists. split; [reflexivity|]. simpl.
  split; [reflexivity|]. split; [reflexivity|]. split.
  - intros -> Hnn.
    now apply (@SetDllDirectoryA_sets World os dll_directory laws).
  - intros ->. now rewrite Hf2.
Qed.

(** The narrow constructor always comes to an end, by return or by
    exception; [s1] is the state after [ExcludeCurrentDirectory], [s2] the
    state in which [LoadLibraryA] is called, [s'] the final state. *)
Lemma SharedObjectLoaderA_lawful (path : LPCSTR) (s : State World) :
  exists s1 s2 s' after,
    ExcludeCurrentDirectory s = Returned tt s1 /\
    IncludePluginDirectoryA path s1
    = Returned (or_empty (dll_directory (world s1))) s2 /\
    final_state (SharedObjectLoaderA path s) = Some s' /\
    dll_directory (world s') = dll_directory (world s1) /\
    calls s' = calls s2
                 ++ [call_LoadLibraryA path;
                     call_SetDllDirectoryA (or_empty (dll_directory (world s1)))]
                 ++ after /\
    (after = [] \/ after = [call_GetLastError; call_getcwd 1024]).
Proof.
  destruct (ExcludeCurrentDirectory_lawful s) as (s1 & E1 & Hd1 & _ & _).
  destruct (IncludePluginDirectoryA_lawful path s1) as (s2 & E2 & _).
  assert (dll_directory (world s1)
          = Some (or_empty (dll_directory (world s1)))) as Hset
      by (rewrite Hd1; apply excluded_is_set).
  set (old := or_empty (dll_directory (world s1))) in *.
  rewrite SharedObjectLoaderA_after_load. unfold before_load, bind.
  rewrite E1, E2. cbv zeta.
  assert (forall w, dll_directory (os_SetDllDirectoryA old w)
                    = dll_directory (world s1)) as Hrestore.
  { intros w. rewrite Hset.
    apply (@SetDllDirectoryA_sets World os dll_directory laws).
    apply no_NUL_or_empty. }
  exists s1, s2.
  destruct (fst (os_LoadLibraryA path (world s2)) =? 0)%N; simpl.
  - eexists. exists [call_GetLastError; call_getcwd 1024].
    split; [reflexivity|]. split; [exact E2|]. split; [reflexivity|].
    simpl. split; [apply Hrestore|]. split; [|now right].
    now rewrite <- !app_assoc.
  - eexists. exists [].
    split; [reflexivity|]. split; [exact E2|]. split; [reflexivity|].
    simpl. split; [apply Hrestore|]. split; [|now left].
    now rewrite <- ?app_assoc, ?app_nil_r.
Qed.

(** Where the narrow and the wide form of the DLL directory have the same
    length, as [DllDirectoryLaws] has it, the narrow constructor does put
    the directory back: whether it returns or throws, the DLL directory it
    leaves behind is the one that was configured right after
    [ExcludeCurrentDirectory], and the saved directory is handed to
    [SetDllDirectoryA] immediately after [LoadLibraryA], ahead of the test
    of the handle. *)
Lemma search_directory_restored (path : LPCSTR) (s : State World) :
  exists s1 s',
    ExcludeCurrentDirectory s = Returned tt s1 /\
    final_state (SharedObjectLoaderA path s) = Some s' /\
    dll_directory (world s') = dll_directory (world s1) /\
    exists before after,
      calls s' = before
                   ++ [call_LoadLibraryA path;
                       call_SetDllDirectoryA
                         (or_empty (dll_directory (world s1)))]
                   ++ after /\
      (after = [] \/ after = [call_GetLastError; call_getcwd 1024]).
Proof.
  destruct (SharedObjectLoaderA_lawful path s)
    as (s1 & s2 & s' & after & E1 & _ & Hf & Hd & Hc & Ha).
  exists s1, s'. repeat split; try assumption.
  exists (calls s2), after. now split.
Qed.


End Lawful.

(** ** Paths without a separator *)

(** C9. A path without a backslash is its own directory name, for the
    narrow and for the wide variant, and so is not empty unless the path
    is. In every run of the narrow constructor that comes to an end
    [IncludePluginDirectoryA] then applies [SetDllDirectoryA] to the whole
    path, [LoadLibraryA] is called in the OS state that call produces, and
    the handle the constructor stores is the one this load returns. On an
    OS with the documented directory semantics the constructor comes to an
    end for every such path and the path is the DLL directory of the state
    in which the library is loaded. *)
Theorem path_without_separator_becomes_search_directory
    {World : Type} {os : Win32 World} (path : LPCSTR) :
  ~ In kPathSeparator path ->
  GetDirnameA path = path /\
  GetDirnameW (map wchar_of_char path) = map wchar_of_char path /\
  (path <> [] ->
   GetDirnameA path <> [] /\
   (forall s s' : State World,
       final_state (SharedObjectLoaderA path s) = Some s' ->
       exists s1 oldDir s2,
         ExcludeCurrentDirectory s = Returned tt s1 /\
         IncludePluginDirectoryA path s1 = Returned oldDir s2 /\
         let r1 := os_GetDllDirectoryW 0%N (world s1) in
         let n := fst (fst r1) in
         let r3 := os_LoadLibraryA path (world s2) in
         world s2 = os_SetDllDirectoryA path
                      (snd (os_GetDllDirectoryA n (snd r1))) /\
         calls s2 = calls s1 ++ [call_GetDllDirectoryW 0%N true;
                                 call_GetDllDirectoryA n false;
                                 call_SetDllDirectoryA path] /\
         world s' = os_SetDllDirectoryA oldDir (snd r3) /\
         shared_object s' = fst r3 /\
         calls s' = calls s2
                      ++ [call_LoadLibraryA path;
                          call_SetDllDirectoryA oldDir]
                      ++ (if (fst r3 =? 0)%N
                          then [call_GetLastError; call_getcwd 1024]
                          else [])) /\
   (forall dll_directory,
       DllDirectoryLaws os dll_directory ->
       no_NUL path ->
       forall s : State World,
       exists oldDir s2 s',
         before_load path s = Returned oldDir s2 /\
         dll_directory (world s2) = Some path /\
         final_state (SharedObjectLoaderA path s) = Some s' /\
         shared_object s' = fst (os_LoadLibraryA path (world s2)) /\
         world s' = os_SetDllDirectoryA oldDir
                      (snd (os_LoadLibraryA path (world s2))))).
Proof.
  intros Hsep.
  pose proof (GetDirnameA_no_separator path Hsep) as HA.
  split; [exact HA|]. split.
  - apply GetDirnameW_no_separator. intros Hin.
    apply in_map_iff in Hin. destruct Hin as (c & Hc & Hin).
    apply wchar_of_char_inj in Hc. now subst c.
  - intros Hne.
    assert (negb (length path =? 0) = true) as Hlen
        by (destruct path; [contradiction | reflexivity]).
    split; [now rewrite HA|]. split.
    + intros s s' Hf.
      destruct (SharedObjectLoaderA_trace path s Hf)
        as (s1 & oldDir & s2 & E1 & E2 & Hw & Hso & Hc).
      destruct (IncludePluginDirectoryA_returned path s1 E2)
        as (Hw2 & Hc2 & _).
      rewrite HA, Hlen in Hw2, Hc2.
      exists s1, oldDir, s2. cbv zeta. auto 10.
    + intros dll_directory laws Hnn s.
      destruct (SharedObjectLoaderA_lawful laws path s)
        as (s1 & s2 & s' & after & E1 & E2 & Hf & _).
      destruct (IncludePluginDirectoryA_lawful laws path s1)
        as (s2' & E2' & _ & _ & Hset & _).
      rewrite E2 in E2'. injection E2' as <-.
      rewrite HA in Hset.
      destruct (SharedObjectLoaderA_trace path s Hf)
        as (t1 & oldDir & t2 & F1 & F2 & Hw & Hso & _).
      rewrite E1 in F1. injection F1 as <-.
      rewrite E2 in F2. injection F2 as <- <-.
      exists (or_empty (dll_directory (world s1))), s2, s'.
      split; [unfold before_load, bind; now rewrite E1|].
      split; [now apply Hset|].
      split; [exact Hf|]. split; [exact Hso | exact Hw].
Qed.

(** ** The life of a loader *)

Section Lifetime.

Context {World : Type} {os : Win32 World}.

Lemma count_FreeLibrary_app (a b : list Call) :
  count_FreeLibrary (a ++ b) = count_FreeLibrary a + count_FreeLibrary b.
Proof. unfold count_FreeLibrary. now rewrite filter_app, length_app. Qed.

Lemma count_FreeLibrary_directory_calls (l : list Call) :
  forallb is_directory_call l = true -> count_FreeLibrary l = 0.
Proof.
  unfold count_FreeLibrary. induction l as [|c l IH]; simpl; [reflexivity|].
  intros H. apply andb_prop in H. destruct H as [Hc Hl].
  destruct c; try discriminate; simpl; now apply IH.
Qed.

(** What a constructor that returns has done. *)
Lemma SharedObjectLoaderA_returned (path : LPCSTR) (s s1 : State World) :
  SharedObjectLoaderA path s = Returned tt s1 ->
  exists oldDir s2 l,
    before_load path s = Returned oldDir s2 /\
    shared_object s1 = fst (os_LoadLibraryA path (world s2)) /\
    shared_object s1 <> 0%N /\
    calls s1 = calls s ++ l /\
    count_FreeLibrary l = 0.
Proof.
  rewrite SharedObjectLoaderA_after_load.
  pose proof (quiet_before_load path s) as Hq.
  destruct (before_load path s) as [oldDir s2|e0 s2|u];
    [|contradiction|discriminate].
  destruct Hq as [_ [l [Hl Hd]]]. cbv zeta.
  destruct (N.eqb_spec (fst (os_LoadLibraryA path (world s2))) 0) as [E0|N0];
    [discriminate|].
  intros H. injection H as <-. simpl.
  exists oldDir, s2,
    (l ++ [call_LoadLibraryA path] ++ [call_SetDllDirectoryA oldDir]).
  repeat split; try assumption.
  - rewrite Hl. now rewrite <- !app_assoc.
  - rewrite count_FreeLibrary_app, count_FreeLibrary_directory_calls by exact Hd.
    reflexivity.
Qed.


(** Look-ups on a loader with a non-null handle: all of them come to an
    end, none reports an unknown library, the handle stays what it is and
    nothing is freed. *)
Lemma get_symbols_with_handle (names : list LPCSTR) :
  forall s : State World,
    shared_object s <> 0%N ->
    exists rs s' l,
      get_symbols names s = Returned rs s' /\
      shared_object s' = shared_object s /\
      length rs = length names /\
      (forall n, ~ In (inr (lookup_error n)) rs) /\
      calls s' = calls s ++ l /\
      count_FreeLibrary l = 0.
Proof.
  induction names as [|name names IH]; intros s Hh.
  - exists [], s, []. simpl. rewrite app_nil_r. repeat split; auto.
  - simpl. unfold bind, try_catch. rewrite get_symbol_eq. cbv zeta.
    destruct (N.eqb_spec (shared_object s) 0) as [E|_]; [contradiction|].
    set (r := os_GetProcAddress (shared_object s) name (world s)).
    destruct (fst r =? 0)%N.
    + match goal with
      | |- context [get_symbols names ?s1] =>
          destruct (IH s1 Hh) as (rs & s' & l & E & Hso & Hlen & Hno & Hc & Hf)
      end.
      rewrite E. simpl in Hso, Hc.
      exists (inr (symbol_error name (os_GetLastError (snd r))) :: rs), s'.
      exists ([call_GetProcAddress (shared_object s) name; call_GetLastError]
                ++ l).
      repeat split; simpl; auto.
      * intros n [H|H]; [discriminate | now apply (Hno n)].
      * rewrite Hc. now rewrite <- app_assoc.
    + match goal with
      | |- context [get_symbols names ?s1] =>
          destruct (IH s1 Hh) as (rs & s' & l & E & Hso & Hlen & Hno & Hc & Hf)
      end.
      rewrite E. simpl in Hso, Hc.
      exists (inl (fst r) :: rs), s'.
      exists ([call_GetProcAddress (shared_object s) name] ++ l).
      repeat split; simpl; auto.
      * intros n [H|H]; [discriminate | now apply (Hno n)].
      * rewrite Hc. now rewrite <- app_assoc.
Qed.

Lemma SharedObjectLoader_dtor_eq (s : State World) :
  SharedObjectLoader_dtor s =
  Returned tt (mkState (os_FreeLibrary (shared_object s) (world s))
                       (calls s ++ [call_FreeLibrary (shared_object s)])
                       (shared_object s)).
Proof. reflexivity. Qed.

(** C6. A constructor that returns has stored a non-null handle, and
    the handle is the same non-null handle after any sequence of look-ups
    and after the destructor; none of the look-ups finds the loader without
    a library. A failed load makes the constructor leave by exception, and
    with it the block that declares the loader: no look-up and no
    destructor runs on a null handle. *)
Theorem handle_non_null_while_loaded
    (path : LPCSTR) (names : list LPCSTR) (s : State World) :
  (forall s1,
      SharedObjectLoaderA path s = Returned tt s1 ->
      shared_object s1 <> 0%N /\
      exists rs s2 s3,
        get_symbols names s1 = Returned rs s2 /\
        shared_object s2 = shared_object s1 /\
        (forall n, ~ In (inr (lookup_error n)) rs) /\
        SharedObjectLoader_dtor s2 = Returned tt s3 /\
        shared_object s3 = shared_object s1 /\
        scoped_loader path names s = Returned rs s3) /\
  (forall oldDir s2,
      before_load path s = Returned oldDir s2 ->
      fst (os_LoadLibraryA path (world s2)) = 0%N ->
      exists e s',
        SharedObjectLoaderA path s = Threw e s' /\
        scoped_loader path names s = Threw e s') /\
  (forall wpath s1,
      SharedObjectLoaderW wpath s = Returned tt s1 ->
      shared_object s1 <> 0%N).
Proof.
  split; [|split];
    [| |intros wpath s1 H;
        eapply SharedObjectLoaderW_returns_non_null; exact H].
  - intros s1 Hc.
    destruct (SharedObjectLoaderA_returned path s Hc)
      as (oldDir & s2 & l & _ & _ & Hne & _).
    split; [exact Hne|].
    destruct (get_symbols_with_handle names s1 Hne)
      as (rs & t2 & l' & E & Hso & _ & Hno & _).
    exists rs, t2. eexists.
    split; [exact E|]. split; [exact Hso|]. split; [exact Hno|].
    split; [apply SharedObjectLoader_dtor_eq|]. split; [exact Hso|].
    unfold scoped_loader, bind. now rewrite Hc, E.
  - intros oldDir s2 Hb Hz.
    destruct (SharedObjectLoaderA_load_fails path s Hb Hz) as (e & s' & Ht).
    exists e, s'. split; [exact Ht|].
    unfold scoped_loader, bind. now rewrite Ht.
Qed.


End Lifetime.

(** ** The reference OS has the documented semantics *)

Lemma c_prefix_no_NUL (s : list CHAR) : no_NUL (RefOS.c_prefix s).
Proof.
  unfold no_NUL. induction s as [|x s IH]; simpl; [tauto|].
  unfold is_NUL. destruct (Ascii.eqb_spec x NUL) as [->|Hx]; simpl; [tauto|].
  intros [E|H]; [now apply Hx | now apply IH].
Qed.

Lemma c_prefix_id (s : list CHAR) : no_NUL s -> RefOS.c_prefix s = s.
Proof.
  unfold no_NUL. induction s as [|x s IH]; simpl; intros H; [reflexivity|].
  unfold is_NUL. destruct (Ascii.eqb_spec x NUL) as [->|Hx].
  - exfalso. apply H. now left.
  - f_equal. apply IH. intros Hin. apply H. now right.
Qed.

Lemma RefOS_laws : DllDirectoryLaws RefOS.os RefOS.dll_directory.
Proof.
  constructor.
  - intros w d H. unfold RefOS.dll_directory in H.
    destruct (RefOS.dir w); [|discriminate]. injection H as <-.
    apply c_prefix_no_NUL.
  - intros n w. simpl. unfold RefOS.GetDllDirectoryA.
    now destruct (_ <? n)%N.
  - intros n w d H. simpl. unfold RefOS.GetDllDirectoryA. fold d.
    now rewrite (proj2 (N.ltb_lt _ _) H).
  - intros w d. simpl. unfold RefOS.GetDllDirectoryA. fold d.
    now destruct (N.of_nat (length d)).
  - intros n w. simpl. unfold RefOS.GetDllDirectoryW.
    now destruct (_ <? n)%N.
  - intros w d. simpl. unfold RefOS.GetDllDirectoryW. simpl.
    fold d. rewrite length_map. now destruct (N.of_nat (length d)).
  - intros d w H. simpl. unfold RefOS.SetDllDirectoryA, RefOS.dll_directory.
    simpl. now rewrite c_prefix_id.
  - intros w. reflexivity.
Qed.



(** ** The defect of the narrow directory name *)

(** C1. The narrow constructor does not pass the parent directory of the
    path to [SetDllDirectoryA]: [FindLastPathSeparatorA] uses [strchr] and
    finds the FIRST separator. For C:\plugins\cpu\plugin.dll the directory
    that is set before [LoadLibraryA] is C: and not C:\plugins\cpu; on the
    reference OS the DLL that lies next to the plugin is then not found and
    the load fails, while the wide constructor sets the parent directory
    and loads the plugin. *)
Theorem narrow_constructor_sets_prefix_to_first_separator :
  let path := lit "C:\plugins\cpu\plugin.dll" in
  let s := RefOS.start RefOS.fresh in
  spec_parent_directory path = Some (lit "C:\plugins\cpu") /\
  GetDirnameA path = lit "C:" /\
  (exists e s',
      SharedObjectLoaderA path s = Threw e s' /\
      calls s' = [call_GetDllDirectoryA 0%N true;
                  call_SetDllDirectoryA [];
                  call_GetDllDirectoryW 0%N true;
                  call_GetDllDirectoryA 1%N false;
                  call_SetDllDirectoryA (lit "C:");
                  call_LoadLibraryA path;
                  call_SetDllDirectoryA [];
                  call_GetLastError;
                  call_getcwd 1024]) /\
  (exists s',
      SharedObjectLoaderW (map wchar_of_char path) s = Returned tt s' /\
      calls s' = [call_GetDllDirectoryA 0%N true;
                  call_SetDllDirectoryA [];
                  call_GetDllDirectoryW 0%N true;
                  call_GetDllDirectoryW 1%N false;
                  call_SetDllDirectoryW (wlit "C:\plugins\cpu");
                  call_LoadLibraryW (map wchar_of_char path);
                  call_SetDllDirectoryW []]).
Proof.
  cbv zeta. split; [reflexivity|]. split; [reflexivity|]. split.
  - eexists. eexists. split; [vm_compute; reflexivity | reflexivity].
  - eexists. split; [vm_compute; reflexivity | reflexivity].
Qed.

(** C8. The narrow and the wide directory name differ on corresponding
    paths as soon as the path has two separators: [GetDirnameA] stops at
    the first one ([strchr]), [GetDirnameW] at the last one ([wcsrchr]).
    For plugins\cpu\plugin.dll the narrow constructor hands plugins to
    [SetDllDirectoryA], the wide one plugins\cpu to [SetDllDirectoryW]. *)
Theorem narrow_and_wide_dirname_differ :
  let path := lit "plugins\cpu\plugin.dll" in
  let s := RefOS.start RefOS.fresh in
  GetDirnameA path = lit "plugins" /\
  GetDirnameW (map wchar_of_char path) = wlit "plugins\cpu" /\
  GetDirnameW (map wchar_of_char path)
  <> map wchar_of_char (GetDirnameA path) /\
  In (call_SetDllDirectoryA (lit "plugins"))
     (new_calls (SharedObjectLoaderA path) s) /\
  ~ In (call_SetDllDirectoryW (wlit "plugins"))
       (new_calls (SharedObjectLoaderW (map wchar_of_char path)) s) /\
  In (call_SetDllDirectoryW (wlit "plugins\cpu"))
     (new_calls (SharedObjectLoaderW (map wchar_of_char path)) s).
Proof.
  cbv zeta. split; [reflexivity|]. split; [reflexivity|].
  split; [vm_compute; discriminate|].
  split; [vm_compute; tauto|].
  split; [vm_compute; intuition discriminate|].
  vm_compute; tauto.
Qed.

(** ** The directory that is not put back *)

(** C4. The narrow constructor does not always restore the DLL directory.
    [IncludePluginDirectoryA] sizes [lpBuffer] with [GetDllDirectoryW]
    (a length in wide characters) and fills it with [GetDllDirectoryA]
    (which needs the length in bytes); the wide sibling asks
    [GetDllDirectoryW] both times. In a double-byte code page, with the DLL
    directory C:\app\ followed by one character of two bytes, the wide
    length is 8 and the narrow one 9: the buffer of 9 elements is too small
    for the 9 bytes and their NUL, the saved string is empty, and the
    constructor leaves the empty directory behind. The wide constructor
    restores the directory in the same process. *)
Theorem narrow_constructor_loses_multibyte_directory :
  let os := RefOS.os_with RefOS.double_byte in
  let s := RefOS.start RefOS.configured in
  exists s1 s' sW,
    @ExcludeCurrentDirectory _ os s = Returned tt s1 /\
    RefOS.dll_directory (world s1) = Some RefOS.app_directory /\
    @SharedObjectLoaderA _ os (lit "C:\plugins\simple.dll") s
    = Returned tt s' /\
    calls s' = [call_GetDllDirectoryA 0%N true;
                call_GetDllDirectoryW 0%N true;
                call_GetDllDirectoryA 9%N false;
                call_SetDllDirectoryA (lit "C:");
                call_LoadLibraryA (lit "C:\plugins\simple.dll");
                call_SetDllDirectoryA []] /\
    RefOS.dll_directory (world s') = Some [] /\
    RefOS.dll_directory (world s') <> RefOS.dll_directory (world s1) /\
    @SharedObjectLoaderW _ os (wlit "C:\plugins\simple.dll") s
    = Returned tt sW /\
    RefOS.dll_directory (world sW) = Some RefOS.app_directory.
Proof.
  cbv zeta. eexists. eexists. eexists.
  split; [vm_compute; reflexivity|].
  split; [reflexivity|].
  split; [vm_compute; reflexivity|].
  split; [reflexivity|].
  split; [reflexivity|].
  split; [vm_compute; discriminate|].
  split; [vm_compute; reflexivity|].
  reflexivity.
Qed.

(** ** The repeated exclusion *)


(** ** The working directory that does not fit *)



(** ** The destructor on a null handle *)


(** ** Runs on the reference OS *)


Lemma get_symbol_cases_witness :
  get_symbol (lit "CreatePluginEngine") (RefOS.start RefOS.fresh)
  = Threw (lookup_error (lit "CreatePluginEngine"))
          (RefOS.start RefOS.fresh) /\
  get_symbol (lit "Nope") RefOS.holding_simple
  = Threw (symbol_error (lit "Nope") RefOS.ERROR_PROC_NOT_FOUND)
          (mkState (RefOS.set_last_error RefOS.ERROR_PROC_NOT_FOUND
                      (world RefOS.holding_simple))
                   [call_GetProcAddress 12288%N (lit "Nope");
                    call_GetLastError]
                   12288%N) /\
  get_symbol (lit "CreatePluginEngine") RefOS.holding_simple
  = Returned 12304%N
             (mkState (world RefOS.holding_simple)
                      [call_GetProcAddress 12288%N (lit "CreatePluginEngine")]
                      12288%N).
Proof.
  split; [|split].
  - destruct (get_symbol_cases (lit "CreatePluginEngine")
                (RefOS.start RefOS.fresh)) as (H & _).
    exact (H eq_refl).
  - destruct (get_symbol_cases (lit "Nope") RefOS.holding_simple)
      as (_ & H & _).
    assert (shared_object RefOS.holding_simple <> 0%N) as Hh
        by (vm_compute; discriminate).
    exact (proj1 (H Hh eq_refl)).
  - destruct (get_symbol_cases (lit "CreatePluginEngine")
                RefOS.holding_simple) as (_ & _ & H & _).
    assert (shared_object RefOS.holding_simple <> 0%N) as Hh
        by (vm_compute; discriminate).
    assert (fst (os_GetProcAddress (shared_object RefOS.holding_simple)
                   (lit "CreatePluginEngine") (world RefOS.holding_simple))
            <> 0%N) as Hp by (vm_compute; discriminate).
    exact (H Hh Hp).
Defined.

Lemma lpBuffer_front_defined_witness :
  exists s1,
    ExcludeCurrentDirectory (RefOS.start RefOS.fresh) = Returned tt s1 /\
    (1 <= fst (fst (os_GetDllDirectoryW 0%N (world s1))))%N /\
    IncludePluginDirectoryA (lit "C:\plugins\simple.dll") s1
    <> Undefined EmptyFront.
Proof.
  eexists. split; [vm_compute; reflexivity|].
  match goal with
  | |- ?P /\ _ => assert P as H by (vm_compute; discriminate)
  end.
  split; [exact H|].
  apply (lpBuffer_front_defined _ H).
Defined.


Lemma path_without_separator_witness :
  GetDirnameA (lit "plugins/cpu/plugin.dll") = lit "plugins/cpu/plugin.dll" /\
  exists oldDir s2 s',
    before_load (lit "plugins/cpu/plugin.dll") (RefOS.start RefOS.fresh)
    = Returned oldDir s2 /\
    RefOS.dll_directory (world s2) = Some (lit "plugins/cpu/plugin.dll") /\
    final_state (SharedObjectLoaderA (lit "plugins/cpu/plugin.dll")
                                     (RefOS.start RefOS.fresh)) = Some s' /\
    shared_object s'
    = fst (os_LoadLibraryA (lit "plugins/cpu/plugin.dll") (world s2)).
Proof.
  assert (~ In kPathSeparator (lit "plugins/cpu/plugin.dll")) as Hsep
      by (vm_compute; intuition discriminate).
  assert (no_NUL (lit "plugins/cpu/plugin.dll")) as Hnn
      by (vm_compute; intuition discriminate).
  assert (lit "plugins/cpu/plugin.dll" <> []) as Hne by discriminate.
  destruct (@path_without_separator_becomes_search_directory
              _ RefOS.os _ Hsep) as (HA & _ & Hrun).
  split; [exact HA|].
  destruct (Hrun Hne) as (_ & _ & Hlaw).
  destruct (Hlaw RefOS.dll_directory RefOS_laws Hnn (RefOS.start RefOS.fresh))
    as (oldDir & s2 & s' & Hb & Hd & Hf & Hso & _).
  exists oldDir, s2, s'. auto.
Defined.

Lemma handle_non_null_while_loaded_witness :
  (exists s1 rs s3,
      SharedObjectLoaderA (lit "C:\plugins\simple.dll")
                          (RefOS.start RefOS.fresh) = Returned tt s1 /\
      shared_object s1 <> 0%N /\
      scoped_loader (lit "C:\plugins\simple.dll")
                    [lit "CreatePluginEngine"; lit "Nope"]
                    (RefOS.start RefOS.fresh) = Returned rs s3 /\
      shared_object s3 = shared_object s1) /\
  (exists e s',
      scoped_loader (lit "nothere.dll")
                    [lit "CreatePluginEngine"; lit "Nope"]
                    (RefOS.start RefOS.fresh) = Threw e s').
Proof.
  split.
  - assert (exists s1,
               SharedObjectLoaderA (lit "C:\plugins\simple.dll")
                                   (RefOS.start RefOS.fresh) = Returned tt s1)
      as (s1 & Hc) by (eexists; vm_compute; reflexivity).
    destruct (handle_non_null_while_loaded (lit "C:\plugins\simple.dll")
                [lit "CreatePluginEngine"; lit "Nope"]
                (RefOS.start RefOS.fresh)) as (H & _ & _).
    destruct (H s1 Hc) as (Hne & rs & s2 & s3 & _ & _ & _ & _ & Hso & Hs).
    exists s1, rs, s3. auto.
  - assert (exists oldDir s2,
               before_load (lit "nothere.dll") (RefOS.start RefOS.fresh)
               = Returned oldDir s2 /\
               fst (os_LoadLibraryA (lit "nothere.dll") (world s2)) = 0%N)
      as (oldDir & s2 & Hb & Hz)
        by (eexists; eexists; split; [vm_compute; reflexivity | reflexivity]).
    destruct (handle_non_null_while_loaded (lit "nothere.dll")
                [lit "CreatePluginEngine"; lit "Nope"]
                (RefOS.start RefOS.fresh)) as (_ & H & _).
    destruct (H oldDir s2 Hb Hz) as (e & s' & _ & Hs).
    exists e, s'. exact Hs.
Defined.


(** * Further properties of the loader *)

(** ** Directory names *)

Lemma last_index_found {C : Type} (is_c : C -> bool) (s : list C) (x : C) :
  In x s -> is_c x = true -> exists i, last_index is_c s = Some i.
Proof.
  intros Hin Hx. destruct (last_index is_c s) as [i|] eqn:E; [eauto|].
  rewrite (last_index_None_inv _ _ E _ Hin) in Hx. discriminate.
Qed.

(** The wide directory name ends before the last separator. *)
Lemma GetDirnameW_split (path : LPCWSTR) :
  In (wchar_of_char kPathSeparator) path ->
  exists rest,
    path = GetDirnameW path ++ wchar_of_char kPathSeparator :: rest /\
    ~ In (wchar_of_char kPathSeparator) rest.
Proof.
  intros Hin. unfold GetDirnameW, FindLastPathSeparatorW, substr0.
  rewrite wcsrchr_last_index by reflexivity.
  destruct (last_index_found (N.eqb (wchar_of_char kPathSeparator)) path _ Hin
              (N.eqb_refl _)) as [i E].
  rewrite E.
  destruct (last_index_split _ _ E) as (x & rest & Hs & Hx & Hr).
  apply N.eqb_eq in Hx. subst x. exists rest. split; [exact Hs|].
  intros Hin'. specialize (Hr _ Hin'). now rewrite N.eqb_refl in Hr.
Qed.

(** X1. For every wide path with a backslash, [GetDirnameW] returns the
    prefix that ends before the LAST backslash: the path is that prefix, a
    backslash, and a rest without backslash. For a wide path without
    backslash it returns the whole path. *)
Theorem GetDirnameW_last_separator (path : LPCWSTR) :
  (In (wchar_of_char kPathSeparator) path ->
   exists rest,
     path = GetDirnameW path ++ wchar_of_char kPathSeparator :: rest /\
     ~ In (wchar_of_char kPathSeparator) rest) /\
  (~ In (wchar_of_char kPathSeparator) path -> GetDirnameW path = path).
Proof.
  split; [apply GetDirnameW_split | apply GetDirnameW_no_separator].
Qed.

Lemma GetDirnameW_last_separator_witness :
  exists rest,
    wlit "C:\plugins\cpu\plugin.dll"
    = GetDirnameW (wlit "C:\plugins\cpu\plugin.dll")
        ++ wchar_of_char kPathSeparator :: rest /\
    ~ In (wchar_of_char kPathSeparator) rest.
Proof.
  destruct (GetDirnameW_last_separator (wlit "C:\plugins\cpu\plugin.dll"))
    as [Hlast _].
  apply Hlast. vm_compute. tauto.
Defined.

Lemma separators_app (a b : list CHAR) :
  separators (a ++ b) = separators a + separators b.
Proof. unfold separators. apply count_occ_app. Qed.

Lemma separators_none (a : list CHAR) :
  separators a = 0 <-> ~ In kPathSeparator a.
Proof. unfold separators. symmetry. apply count_occ_not_In. Qed.

Lemma map_wchar_of_char_inj (a b : list CHAR) :
  map wchar_of_char a = map wchar_of_char b -> a = b.
Proof.
  revert b. induction a as [|x a IH]; intros [|y b] H; try discriminate;
    [reflexivity|].
  simpl in H. injection H as Hx Hab.
  apply wchar_of_char_inj in Hx. subst y. f_equal. now apply IH.
Qed.

(** X3. The narrow and the wide directory name of a path are the same
    string exactly when the path has at most one backslash. *)
Theorem dirname_variants_agree_iff (path : list CHAR) :
  GetDirnameW (map wchar_of_char path) = map wchar_of_char (GetDirnameA path)
  <-> separators path <= 1.
Proof.
  destruct (in_dec ascii_dec kPathSeparator path) as [Hin|Hno].
  - destruct (spec_parent_directory_defined path Hin) as [parent Hp].
    rewrite (GetDirnameW_is_parent_directory path Hp).
    assert (separators path = S (separators parent)) as Hcount.
    { unfold spec_parent_directory in Hp.
      destruct (last_index (Ascii.eqb kPathSeparator) path) as [i|] eqn:E;
        [|discriminate].
      injection Hp as <-.
      destruct (last_index_split _ _ E) as (x & rest & Hs & Hx & Hr).
      apply Ascii.eqb_eq in Hx. subst x.
      assert (separators rest = 0) as Hrest.
      { apply separators_none. intros Hin'. specialize (Hr _ Hin').
        now rewrite Ascii.eqb_refl in Hr. }
      change (@firstn ascii i path) with (@firstn CHAR i path) in Hs.
      rewrite Hs at 1. rewrite separators_app.
      change (kPathSeparator :: rest) with ([kPathSeparator] ++ rest).
      rewrite separators_app, Hrest.
      unfold separators at 2. simpl.
      destruct (ascii_dec kPathSeparator kPathSeparator) as [_|N];
        [lia | now contradiction N]. }
    rewrite Hcount.
    pose proof (GetDirnameA_is_parent_directory_iff path Hp) as Hiff.
    split.
    + intros H. apply map_wchar_of_char_inj in H. symmetry in H.
      apply Hiff, separators_none in H. lia.
    + intros H. f_equal. symmetry. apply Hiff, separators_none. lia.
  - rewrite (GetDirnameA_no_separator path Hno).
    rewrite GetDirnameW_no_separator.
    + split; [|reflexivity]. intros _.
      apply separators_none in Hno. lia.
    + intros Hin. apply in_map_iff in Hin. destruct Hin as (c & Hc & Hin).
      apply wchar_of_char_inj in Hc. now subst c.
Qed.

(** ** Paths whose directory name is empty *)

Lemma GetDirnameA_empty_iff (path : LPCSTR) :
  GetDirnameA path = [] <->
  path = [] \/ exists rest, path = kPathSeparator :: rest.
Proof.
  split.
  - intros H. destruct path as [|x p]; [now left|]. right.
    destruct (in_dec ascii_dec kPathSeparator (x :: p)) as [Hin|Hno].
    + destruct (GetDirnameA_first_separator _ Hin) as (rest & Hs & _).
      rewrite H in Hs. simpl in Hs. eauto.
    + rewrite (GetDirnameA_no_separator _ Hno) in H. discriminate.
  - intros [->|[rest ->]]; reflexivity.
Qed.

Lemma GetDirnameW_empty_iff (path : LPCWSTR) :
  GetDirnameW path = [] <->
  path = [] \/
  exists rest, path = wchar_of_char kPathSeparator :: rest /\
               ~ In (wchar_of_char kPathSeparator) rest.
Proof.
  split.
  - intros H. destruct path as [|x p]; [now left|]. right.
    destruct (in_dec N.eq_dec (wchar_of_char kPathSeparator) (x :: p))
      as [Hin|Hno].
    + destruct (GetDirnameW_split _ Hin) as (rest & Hs & Hr).
      rewrite H in Hs. simpl in Hs. eauto.
    + rewrite (GetDirnameW_no_separator _ Hno) in H. discriminate.
  - intros [->|(rest & -> & Hr)]; [reflexivity|].
    assert (In (wchar_of_char kPathSeparator)
               (wchar_of_char kPathSeparator :: rest)) as Hin by now left.
    destruct (GetDirnameW_split _ Hin) as (rest' & Hs & Hr').
    destruct (GetDirnameW (wchar_of_char kPathSeparator :: rest))
      as [|y d]; [reflexivity|].
    exfalso. simpl in Hs. injection Hs as <- Hrest.
    apply Hr. rewrite Hrest. apply in_or_app. right. now left.
Qed.

Section EmptyDirname.

Context {World : Type} {os : Win32 World}.

(** X4. The directory name of a narrow path is empty exactly when the path
    is empty or begins with a backslash, that of a wide path exactly when
    the path is empty or its only backslash is the first character. For
    such a path [IncludePluginDirectoryA] and [IncludePluginDirectoryW] do
    not call [SetDllDirectory]: they make the two [GetDllDirectory] calls
    and nothing else, so the search directory is not changed for the
    load. *)
Theorem empty_dirname_sets_no_directory (s : State World) :
  (forall path : LPCSTR,
      (GetDirnameA path = [] <->
       path = [] \/ exists rest, path = kPathSeparator :: rest) /\
      (GetDirnameA path = [] ->
       forall oldDir s',
         IncludePluginDirectoryA path s = Returned oldDir s' ->
         let n := fst (fst (os_GetDllDirectoryW 0%N (world s))) in
         calls s' = calls s ++ [call_GetDllDirectoryW 0%N true;
                                call_GetDllDirectoryA n false] /\
         world s' = snd (os_GetDllDirectoryA n
                           (snd (os_GetDllDirectoryW 0%N (world s)))))) /\
  (forall path : LPCWSTR,
      (GetDirnameW path = [] <->
       path = [] \/
       exists rest, path = wchar_of_char kPathSeparator :: rest /\
                    ~ In (wchar_of_char kPathSeparator) rest) /\
      (GetDirnameW path = [] ->
       forall oldDir s',
         IncludePluginDirectoryW path s = Returned oldDir s' ->
         let n := fst (fst (os_GetDllDirectoryW 0%N (world s))) in
         calls s' = calls s ++ [call_GetDllDirectoryW 0%N true;
                                call_GetDllDirectoryW n false] /\
         world s' = snd (os_GetDllDirectoryW n
                           (snd (os_GetDllDirectoryW 0%N (world s)))))).
Proof.
  split; intros path.
  - split; [apply GetDirnameA_empty_iff|]. intros Hp.
    intros oldDir s'. rewrite IncludePluginDirectoryA_eq. cbv zeta.
    rewrite Hp. simpl.
    destruct (resize NUL [] _) as [|c0 buf]; [discriminate|].
    destruct (store (c0 :: buf) _) as [[|c1 buf']|]; try discriminate.
    destruct (c_string is_NUL (c1 :: buf')); [|discriminate].
    intros H. injection H as _ <-. simpl. now rewrite ?app_nil_r.
  - split; [apply GetDirnameW_empty_iff|]. intros Hp.
    intros oldDir s'. rewrite IncludePluginDirectoryW_eq. cbv zeta.
    rewrite Hp. simpl.
    destruct (resize WNUL [] _) as [|c0 buf]; [discriminate|].
    destruct (store (c0 :: buf) _) as [[|c1 buf']|]; try discriminate.
    destruct (c_string is_WNUL (c1 :: buf')); [|discriminate].
    intros H. injection H as _ <-. simpl. now rewrite ?app_nil_r.
Qed.

End EmptyDirname.

Lemma empty_dirname_sets_no_directory_witness :
  GetDirnameA (lit "\plugin.dll") = [] /\
  exists oldDir s',
    IncludePluginDirectoryA (lit "\plugin.dll") (RefOS.start RefOS.fresh)
    = Returned oldDir s' /\
    calls s' = [call_GetDllDirectoryW 0%N true;
                call_GetDllDirectoryA 1%N false].
Proof.
  destruct (empty_dirname_sets_no_directory (RefOS.start RefOS.fresh))
    as [HA _].
  destruct (HA (lit "\plugin.dll")) as [Hiff Hrun].
  assert (GetDirnameA (lit "\plugin.dll") = []) as Hd
      by (apply Hiff; right; eexists; reflexivity).
  specialize (Hrun Hd).
  split; [exact Hd|].
  assert (exists oldDir s',
             IncludePluginDirectoryA (lit "\plugin.dll")
                                     (RefOS.start RefOS.fresh)
             = Returned oldDir s') as (oldDir & s' & E)
      by (eexists; eexists; vm_compute; reflexivity).
  exists oldDir, s'. split; [exact E|].
  exact (proj1 (Hrun oldDir s' E)).
Defined.

(** ** The wide constructor *)

Section Wide.

Context {World : Type} {os : Win32 World}.


(** The wide constructor, step by step after the load. *)
Lemma SharedObjectLoaderW_after_load (path : LPCWSTR) (s : State World) :
  SharedObjectLoaderW path s =
  match before_loadW path s with
  | Returned oldDir s2 =>
      let h := fst (os_LoadLibraryW path (world s2)) in
      let w := os_SetDllDirectoryW oldDir
                 (snd (os_LoadLibraryW path (world s2))) in
      let l := calls s2 ++ [call_LoadLibraryW path]
                        ++ [call_SetDllDirectoryW oldDir] in
      if (h =? 0)%N
      then Threw (load_errorW path (os_GetLastError w) (os_getcwd 1024 w))
                 (mkState w (l ++ [call_GetLastError] ++ [call_getcwd 1024]) h)
      else Returned tt (mkState w l h)
  | Threw e s2 => Threw e s2
  | Undefined u => Undefined u
  end.
Proof.
  unfold SharedObjectLoaderW, before_loadW, bind.
  destruct (ExcludeCurrentDirectory s) as [[] s1|e s1|u]; try reflexivity.
  destruct (IncludePluginDirectoryW path s1) as [oldDir s2|e s2|u];
    try reflexivity.
  unfold LoadLibraryW, SetDllDirectoryW, GetLastError, _getcwd, os_call,
    set_shared_object, get_shared_object, THROW_IE_EXCEPTION, ret.
  destruct (os_LoadLibraryW path (world s2)) as [h w3]. simpl.
  destruct (h =? 0)%N; simpl; unfold load_errorW;
    repeat rewrite <- app_assoc; reflexivity.
Qed.


(** The run of a wide constructor that comes to an end: [s1] is the state
    after [ExcludeCurrentDirectory], [s2] the state in which [LoadLibraryW]
    is called, [oldDir] the directory [IncludePluginDirectoryW] saved. *)
Lemma SharedObjectLoaderW_trace (path : LPCWSTR) (s s' : State World) :
  final_state (SharedObjectLoaderW path s) = Some s' ->
  exists s1 oldDir s2,
    ExcludeCurrentDirectory s = Returned tt s1 /\
    IncludePluginDirectoryW path s1 = Returned oldDir s2 /\
    let r3 := os_LoadLibraryW path (world s2) in
    world s' = os_SetDllDirectoryW oldDir (snd r3) /\
    shared_object s' = fst r3 /\
    calls s' = calls s2
                 ++ [call_LoadLibraryW path; call_SetDllDirectoryW oldDir]
                 ++ (if (fst r3 =? 0)%N
                     then [call_GetLastError; call_getcwd 1024] else []).
Proof.
  rewrite SharedObjectLoaderW_after_load. unfold before_loadW, bind.
  pose proof (quiet_ExcludeCurrentDirectory s) as Hq.
  destruct (ExcludeCurrentDirectory s) as [[] s1|e s1|u] eqn:E1;
    [|contradiction|discriminate].
  clear Hq. pose proof (quiet_IncludePluginDirectoryW path s1) as Hq.
  destruct (IncludePluginDirectoryW path s1) as [oldDir s2|e s2|u] eqn:E2;
    [|contradiction|discriminate].
  cbv zeta. intros Hs'. exists s1, oldDir, s2.
  split; [reflexivity|]. split; [exact E2|].
  destruct (fst (os_LoadLibraryW path (world s2)) =? 0)%N;
    cbn [final_state] in Hs'; injection Hs' as <-;
    cbn [world calls shared_object];
    (split; [reflexivity|]); (split; [reflexivity|]);
    rewrite <- ?app_assoc, ?app_nil_r; reflexivity.
Qed.

End Wide.


(** ** The wide constructor on an OS with the documented directory semantics *)

Section WideLawful.

Context {World : Type} {os : Win32 World}.
Variable dll_directoryW : World -> option (list WCHAR).
Hypothesis laws : WideDirectoryLaws os dll_directoryW.

Lemma no_WNUL_or_empty (w : World) : no_WNUL (or_empty (dll_directoryW w)).
Proof.
  destruct (dll_directoryW w) as [d|] eqn:E; simpl.
  - exact (@dirW_is_c_string World os dll_directoryW laws w d E).
  - intros [].
Qed.

Lemma excludedW_is_set (d : option (list WCHAR)) :
  excludedW d = Some (or_empty (excludedW d)).
Proof. now destruct d as [[|c d]|]. Qed.

Lemma ExcludeCurrentDirectory_lawfulW (s : State World) :
  exists s1,
    ExcludeCurrentDirectory s = Returned tt s1 /\
    dll_directoryW (world s1) = excludedW (dll_directoryW (world s)) /\
    shared_object s1 = shared_object s.
Proof.
  rewrite ExcludeCurrentDirectory_eq. cbv zeta.
  pose proof (@GetDllDirectory_NULL_small World os dll_directoryW laws
                (world s)) as Hsmall.
  pose proof (@GetDllDirectory_NULL_frame World os dll_directoryW laws
                (world s)) as Hframe.
  destruct (fst (os_GetDllDirectory_NULL 0%N (world s)) <=? 1)%N.
  - eexists. split; [reflexivity|]. simpl. split; [|reflexivity].
    rewrite (@SetDllDirectory_TEXT_empty_sets World os dll_directoryW laws).
    assert (or_empty (dll_directoryW (world s)) = []) as He
        by now apply Hsmall.
    now destruct (dll_directoryW (world s)) as [[|c d]|].
  - eexists. split; [reflexivity|]. simpl. split; [|reflexivity].
    rewrite Hframe.
    destruct (dll_directoryW (world s)) as [[|c d]|]; simpl;
      try reflexivity;
      exfalso; assert (false = true) as F by (now apply Hsmall);
      discriminate F.
Qed.

Lemma c_stringW_terminated (d rest : list WCHAR) :
  no_WNUL d -> c_string is_WNUL (d ++ WNUL :: rest) = Some d.
Proof.
  unfold no_WNUL. induction d as [|x d IH]; simpl; intros H; [reflexivity|].
  unfold is_WNUL at 1. destruct (N.eqb_spec x WNUL) as [->|_].
  - exfalso. apply H. now left.
  - rewrite IH; [reflexivity|]. intros Hin. apply H. now right.
Qed.

Lemma IncludePluginDirectoryW_lawful (path : LPCWSTR) (s : State World) :
  let old := or_empty (dll_directoryW (world s)) in
  exists s2,
    IncludePluginDirectoryW path s = Returned old s2 /\
    shared_object s2 = shared_object s.
Proof.
  cbv zeta. rewrite IncludePluginDirectoryW_eq. cbv zeta.
  pose proof (@GetDllDirectoryW_sizeW World os dll_directoryW laws
                (world s)) as Hn.
  pose proof (@GetDllDirectoryW_frameW World os dll_directoryW laws
                0%N (world s)) as Hf1.
  set (r1 := os_GetDllDirectoryW 0%N (world s)) in *.
  set (old := or_empty (dll_directoryW (world s))) in *.
  rewrite Hn.
  pose proof (@GetDllDirectoryW_fits World os dll_directoryW laws
                (N.of_nat (length old) + 1)%N (snd r1)) as Hfit.
  cbv zeta in Hfit. rewrite Hf1 in Hfit. fold old in Hfit.
  specialize (Hfit ltac:(lia)).
  set (r2 := os_GetDllDirectoryW (N.of_nat (length old) + 1)%N (snd r1)) in *.
  replace (snd (fst r2)) with (old ++ [WNUL]) by now rewrite Hfit.
  replace (N.to_nat (N.of_nat (length old) + 1)) with (S (length old)) by lia.
  assert (store (resize WNUL [] (S (length old))) (old ++ [WNUL])
          = Some (old ++ [WNUL])) as Hs.
  { unfold store. rewrite resize_nil_length, length_app. simpl.
    replace (length old + 1 <=? S (length old)) with true
      by (symmetry; apply Nat.leb_le; lia).
    rewrite skipn_all2; [now rewrite app_nil_r|].
    rewrite resize_nil_length. lia. }
  rewrite Hs. unfold resize. simpl.
  assert (c_string is_WNUL (old ++ [WNUL]) = Some old) as Hc
      by (apply c_stringW_terminated, no_WNUL_or_empty).
  destruct (old ++ [WNUL]) as [|c1 b1] eqn:Ed;
    [destruct old; discriminate|].
  rewrite Hc. eexists. split; reflexivity.
Qed.

(** X7. On an OS with the documented directory semantics the wide
    constructor always comes to an end and puts the DLL directory back:
    whether it returns or throws, the directory it leaves behind is the one
    that was configured right after [ExcludeCurrentDirectory], which is
    the directory of the process when one was set and the empty string
    otherwise. *)
Theorem wide_constructor_restores_directory
    (path : LPCWSTR) (s : State World) :
  exists s1 s',
    ExcludeCurrentDirectory s = Returned tt s1 /\
    dll_directoryW (world s1) = excludedW (dll_directoryW (world s)) /\
    final_state (SharedObjectLoaderW path s) = Some s' /\
    dll_directoryW (world s') = dll_directoryW (world s1).
Proof.
  destruct (ExcludeCurrentDirectory_lawfulW s) as (s1 & E1 & Hd1 & _).
  destruct (IncludePluginDirectoryW_lawful path s1) as (s2 & E2 & _).
  assert (dll_directoryW (world s1)
          = Some (or_empty (dll_directoryW (world s1)))) as Hset
      by (rewrite Hd1; apply excludedW_is_set).
  exists s1.
  rewrite SharedObjectLoaderW_after_load. unfold before_loadW, bind.
  rewrite E1, E2. cbv zeta.
  pose proof (fun w' => @SetDllDirectoryW_restores World os dll_directoryW
                          laws (world s1) _ w' Hset) as Hrestore.
  destruct (fst (os_LoadLibraryW path (world s2)) =? 0)%N; simpl;
    eexists; (split; [reflexivity|]); (split; [exact Hd1|]);
    (split; [reflexivity|]); simpl; rewrite Hrestore; now rewrite <- Hset.
Qed.

End WideLawful.

(** ** The reference OS has the wide directory semantics *)

Lemma N_of_ascii_zero (c : CHAR) : N_of_ascii c = 0%N -> c = NUL.
Proof.
  intros H. rewrite <- (ascii_N_embedding c), H. reflexivity.
Qed.

Lemma single_byte_faithful : faithful RefOS.single_byte.
Proof.
  split; [|split]; simpl.
  - intros x _. rewrite map_map. rewrite <- (map_id x) at 2.
    apply map_ext. intros c. apply ascii_N_embedding.
  - intros x Hx Hin. apply in_map_iff in Hin. destruct Hin as (c & Hc & Hin).
    apply N_of_ascii_zero in Hc. subst c. now apply Hx.
  - intros x. split; [|now intros ->].
    destruct x; [reflexivity | discriminate].
Qed.

Lemma dbcs_decode_nil (x : list CHAR) : RefOS.dbcs_decode x = [] <-> x = [].
Proof.
  split; [|now intros ->].
  destruct x as [|c [|t x]]; simpl; [reflexivity| |];
    destruct (RefOS.is_lead_byte c); discriminate.
Qed.

Lemma dbcs_encode_byte (c : CHAR) : RefOS.dbcs_encode_char (N_of_ascii c) = [c].
Proof.
  unfold RefOS.dbcs_encode_char.
  rewrite (proj2 (N.ltb_lt _ _) (N_ascii_bounded c)).
  now rewrite ascii_N_embedding.
Qed.

Lemma dbcs_encode_pair (c t : CHAR) :
  RefOS.is_lead_byte c = true ->
  RefOS.dbcs_encode_char (256 * N_of_ascii c + N_of_ascii t)%N = [c; t].
Proof.
  unfold RefOS.is_lead_byte, RefOS.dbcs_encode_char. intros Hc.
  apply N.leb_le in Hc.
  pose proof (N_ascii_bounded t) as Ht.
  replace (256 * N_of_ascii c + N_of_ascii t <? 256)%N with false
    by (symmetry; apply N.ltb_ge; lia).
  assert ((256 * N_of_ascii c + N_of_ascii t) / 256 = N_of_ascii c)%N as Hq.
  { rewrite N.mul_comm, N.div_add_l by discriminate.
    rewrite (N.div_small _ _ Ht). lia. }
  assert ((256 * N_of_ascii c + N_of_ascii t) mod 256 = N_of_ascii t)%N as Hr.
  { rewrite N.add_comm, N.mul_comm, N.Div0.mod_add.
    now apply N.mod_small. }
  now rewrite Hq, Hr, !ascii_N_embedding.
Qed.

Lemma dbcs_decode_cons2 (c t : CHAR) (x : list CHAR) :
  RefOS.dbcs_decode (c :: t :: x)
  = if RefOS.is_lead_byte c
    then (256 * N_of_ascii c + N_of_ascii t)%N :: RefOS.dbcs_decode x
    else N_of_ascii c :: RefOS.dbcs_decode (t :: x).
Proof. reflexivity. Qed.

Lemma dbcs_round_trip_bounded (n : nat) :
  forall x, length x <= n ->
            flat_map RefOS.dbcs_encode_char (RefOS.dbcs_decode x) = x.
Proof.
  induction n as [|n IH]; intros x Hlen.
  - destruct x; [reflexivity | simpl in Hlen; lia].
  - destruct x as [|c [|t x]]; [reflexivity| |].
    + simpl. destruct (RefOS.is_lead_byte c); simpl;
        now rewrite dbcs_encode_byte.
    + rewrite dbcs_decode_cons2.
      destruct (RefOS.is_lead_byte c) eqn:Hc.
      * cbn [flat_map]. rewrite (dbcs_encode_pair c t Hc).
        rewrite IH by (cbn [length] in *; lia). reflexivity.
      * cbn [flat_map]. rewrite dbcs_encode_byte.
        rewrite IH by (cbn [length] in *; lia). reflexivity.
Qed.

Lemma dbcs_no_WNUL_bounded (n : nat) :
  forall x, length x <= n -> no_NUL x -> no_WNUL (RefOS.dbcs_decode x).
Proof.
  unfold no_NUL, no_WNUL.
  induction n as [|n IH]; intros x Hlen Hx.
  - destruct x; [intros [] | simpl in Hlen; lia].
  - destruct x as [|c [|t x]]; [intros []| |].
    + assert (N_of_ascii c <> 0%N) as Hc.
      { intros E. apply N_of_ascii_zero in E. apply Hx. now left. }
      simpl. destruct (RefOS.is_lead_byte c); simpl;
        intros [E|[]]; now apply Hc.
    + rewrite dbcs_decode_cons2.
      destruct (RefOS.is_lead_byte c) eqn:Hc.
      * unfold RefOS.is_lead_byte in Hc. apply N.leb_le in Hc.
        intros [E|Hin]; [unfold WNUL in E; lia|].
        revert Hin. apply IH; [cbn [length] in *; lia|].
        intros Hin. apply Hx. right. now right.
      * intros [E|Hin].
        -- apply N_of_ascii_zero in E. apply Hx. now left.
        -- revert Hin. apply IH; [cbn [length] in *; lia|].
           intros Hin. apply Hx. now right.
Qed.

Lemma double_byte_faithful : faithful RefOS.double_byte.
Proof.
  split; [|split]; simpl.
  - intros x _. exact (@dbcs_round_trip_bounded (length x) x (le_n _)).
  - intros x Hx. exact (@dbcs_no_WNUL_bounded (length x) x (le_n _) Hx).
  - apply dbcs_decode_nil.
Qed.

Lemma c_prefix_idempotent (s : list CHAR) :
  RefOS.c_prefix (RefOS.c_prefix s) = RefOS.c_prefix s.
Proof. apply c_prefix_id, c_prefix_no_NUL. Qed.

Lemma RefOS_wide_laws (cp : RefOS.CodePage) :
  faithful cp ->
  WideDirectoryLaws (RefOS.os_with cp) (RefOS_dll_directoryW cp).
Proof.
  intros (Hback & Hnul & Hnil).
  assert (forall w, or_empty (RefOS_dll_directoryW cp w)
                    = RefOS.MultiByteToWideChar cp
                        (or_empty (RefOS.dll_directory w))) as Hor.
  { intros w. unfold RefOS_dll_directoryW.
    destruct (RefOS.dll_directory w); simpl; [reflexivity|].
    symmetry. now apply Hnil. }
  constructor.
  - intros w d H. unfold RefOS_dll_directoryW in H.
    destruct (RefOS.dll_directory w) as [x|] eqn:E; [|discriminate].
    injection H as <-. apply Hnul.
    unfold RefOS.dll_directory in E.
    destruct (RefOS.dir w); [|discriminate]. injection E as <-.
    apply c_prefix_no_NUL.
  - intros w. unfold os_GetDllDirectory_NULL. simpl.
    unfold RefOS.GetDllDirectoryA. now destruct (_ <? 0)%N.
  - intros w. unfold os_GetDllDirectory_NULL. simpl.
    unfold RefOS.GetDllDirectoryA. rewrite Hor.
    destruct (N.of_nat (length (or_empty (RefOS.dll_directory w)))) eqn:El;
      simpl.
    + assert (or_empty (RefOS.dll_directory w) = []) as ->
          by (destruct (or_empty (RefOS.dll_directory w));
              [reflexivity | discriminate]).
      split; [intros _; now apply Hnil | reflexivity].
    + split.
      * intros H. exfalso. apply N.leb_le in H. lia.
      * intros H. apply Hnil in H. rewrite H in El. discriminate.
  - intros w. unfold os_GetDllDirectory_NULL, os_SetDllDirectory_TEXT_empty.
    simpl. unfold RefOS_dll_directoryW. simpl. f_equal. now apply Hnil.
  - intros n w. simpl. unfold RefOS.GetDllDirectoryW.
    now destruct (_ <? n)%N.
  - intros w. simpl. unfold RefOS.GetDllDirectoryW. rewrite Hor.
    now destruct (N.of_nat _).
  - intros n w d H. simpl. unfold RefOS.GetDllDirectoryW.
    unfold d in *. rewrite Hor in *.
    now rewrite (proj2 (N.ltb_lt _ _) H).
  - intros w d w' H. simpl. unfold RefOS_dll_directoryW in *.
    unfold RefOS.SetDllDirectoryW, RefOS.dll_directory in *. simpl.
    destruct (RefOS.dir w) as [raw|]; [|discriminate].
    injection H as <-.
    rewrite Hback by apply c_prefix_no_NUL.
    now rewrite c_prefix_idempotent.
Qed.

(** The wide constructor puts the directory back in the single-byte and in
    the double-byte code page, also where the narrow one loses it. *)
Lemma wide_constructor_restores_directory_witness :
  (exists s1 s',
      ExcludeCurrentDirectory (RefOS.start RefOS.fresh) = Returned tt s1 /\
      final_state (SharedObjectLoaderW (wlit "C:\plugins\simple.dll")
                                       (RefOS.start RefOS.fresh)) = Some s' /\
      RefOS_dll_directoryW RefOS.single_byte (world s')
      = RefOS_dll_directoryW RefOS.single_byte (world s1)) /\
  (exists s1 s',
      @ExcludeCurrentDirectory _ (RefOS.os_with RefOS.double_byte)
        (RefOS.start RefOS.configured) = Returned tt s1 /\
      final_state (@SharedObjectLoaderW _ (RefOS.os_with RefOS.double_byte)
                     (wlit "C:\plugins\simple.dll")
                     (RefOS.start RefOS.configured)) = Some s' /\
      RefOS_dll_directoryW RefOS.double_byte (world s')
      = RefOS_dll_directoryW RefOS.double_byte (world s1)).
Proof.
  split.
  - destruct (wide_constructor_restores_directory
                (RefOS_wide_laws single_byte_faithful)
                (wlit "C:\plugins\simple.dll") (RefOS.start RefOS.fresh))
      as (s1 & s' & H1 & _ & H2 & H3).
    exists s1, s'. auto.
  - destruct (wide_constructor_restores_directory
                (RefOS_wide_laws double_byte_faithful)
                (wlit "C:\plugins\simple.dll") (RefOS.start RefOS.configured))
      as (s1 & s' & H1 & _ & H2 & H3).
    exists s1, s'. auto.
Defined.

(** ** The buffer that saves the directory *)

Lemma resize_nil_repeat {C : Type} (z : C) (n : nat) :
  resize z [] n = repeat z n.
Proof. unfold resize. rewrite firstn_nil. simpl. now rewrite Nat.sub_0_r. Qed.

Lemma skipn_repeat {C : Type} (z : C) (k n : nat) :
  skipn k (repeat z n) = repeat z (n - k).
Proof.
  revert n. induction k as [|k IH]; intros [|n]; simpl; try reflexivity.
  apply IH.
Qed.

Lemma c_string_app_repeat {C : Type} (is_nul : C -> bool) (z : C)
    (data : list C) (k : nat) :
  is_nul z = true ->
  c_string is_nul (data ++ repeat z k)
  = if existsb is_nul data || (0 <? k)
    then Some (before_nul is_nul data) else None.
Proof.
  intros Hz. induction data as [|x data IH]; simpl.
  - destruct k; simpl; [reflexivity | now rewrite Hz].
  - destruct (is_nul x); simpl; [reflexivity|]. rewrite IH.
    now destruct (existsb is_nul data || (0 <? k)).
Qed.

Lemma before_nul_length {C : Type} (is_nul : C -> bool) (data : list C) :
  length (before_nul is_nul data) <= length data /\
  (existsb is_nul data = true ->
   length (before_nul is_nul data) < length data).
Proof.
  induction data as [|x data [IH1 IH2]]; simpl.
  - split; [lia | discriminate].
  - destruct (is_nul x); simpl; [split; lia|].
    split; [lia|]. intros H. specialize (IH2 H). lia.
Qed.

(** What a read of the buffer gives after the OS has stored [data] in a
    vector resized to [n] zeros. *)
Lemma stored_c_string {C : Type} (is_nul : C -> bool) (z : C) (n : nat)
    (data : list C) :
  is_nul z = true ->
  match resize z [] n with
  | [] => holds_c_string is_nul n data = false
  | (_ :: _) as lpBuffer =>
      match store lpBuffer data with
      | None | Some [] => holds_c_string is_nul n data = false
      | Some ((_ :: _) as lpBuffer') =>
          match c_string is_nul lpBuffer' with
          | None => holds_c_string is_nul n data = false
          | Some d =>
              holds_c_string is_nul n data = true /\
              d = before_nul is_nul data /\ length d < n
          end
      end
  end.
Proof.
  intros Hz. rewrite resize_nil_repeat. unfold holds_c_string.
  destruct n as [|n]; cbn [repeat].
  - destruct data as [|x data]; reflexivity.
  - change (z :: repeat z n) with (repeat z (S n)).
    unfold store. rewrite repeat_length, skipn_repeat.
    destruct (Nat.leb_spec (length data) (S n)) as [Hle|Hgt];
      [|reflexivity].
    pose proof (@c_string_app_repeat C is_nul z data (S n - length data) Hz)
      as Hc.
    replace (0 <? S n - length data) with (length data <? S n) in Hc
      by (destruct (Nat.ltb_spec (length data) (S n));
          destruct (Nat.ltb_spec 0 (S n - length data)); (reflexivity || lia)).
    destruct (data ++ repeat z (S n - length data)) as [|c1 b1] eqn:Eb.
    + apply (f_equal (@length C)) in Eb.
      rewrite length_app, repeat_length in Eb.
      change (length (@nil C)) with 0 in Eb. lia.
    + rewrite Hc. simpl.
      destruct (existsb is_nul data) eqn:Ex; simpl.
      * split; [reflexivity|]. split; [reflexivity|].
        pose proof (proj2 (before_nul_length is_nul data) Ex). lia.
      * destruct (Nat.ltb_spec (length data) (S n)) as [Hlt|Hge];
          [|reflexivity].
        split; [reflexivity|]. split; [reflexivity|].
        pose proof (proj1 (before_nul_length is_nul data)). lia.
Qed.

Section SavedDirectory.

Context {World : Type} {os : Win32 World}.

(** X8. On every OS, [IncludePluginDirectoryA] and
    [IncludePluginDirectoryW] never throw, and whether they return is
    decided by what the OS stores in the buffer of [n] elements, [n] being
    the size [GetDllDirectoryW(0, nullptr)] reported: when the stored
    characters fit in the buffer and a NUL is among them or is left behind
    them, the function returns the stored characters that precede the first
    NUL, which are fewer than [n]; in every other case its behaviour is
    undefined (the access to an empty vector, a store or a read past the
    buffer). *)
Theorem IncludePluginDirectory_defined_iff (s : State World) :
  let r1 := os_GetDllDirectoryW 0%N (world s) in
  let n := fst (fst r1) in
  (forall path : LPCSTR,
      let data := snd (fst (os_GetDllDirectoryA n (snd r1))) in
      (holds_c_string is_NUL (N.to_nat n) data = true ->
       (exists s', IncludePluginDirectoryA path s
                   = Returned (before_nul is_NUL data) s') /\
       length (before_nul is_NUL data) < N.to_nat n) /\
      (holds_c_string is_NUL (N.to_nat n) data = false ->
       exists u, IncludePluginDirectoryA path s = Undefined u)) /\
  (forall path : LPCWSTR,
      let data := snd (fst (os_GetDllDirectoryW n (snd r1))) in
      (holds_c_string is_WNUL (N.to_nat n) data = true ->
       (exists s', IncludePluginDirectoryW path s
                   = Returned (before_nul is_WNUL data) s') /\
       length (before_nul is_WNUL data) < N.to_nat n) /\
      (holds_c_string is_WNUL (N.to_nat n) data = false ->
       exists u, IncludePluginDirectoryW path s = Undefined u)).
Proof.
  cbv zeta. split; intros path.
  - rewrite IncludePluginDirectoryA_eq. cbv zeta.
    set (n := N.to_nat (fst (fst (os_GetDllDirectoryW 0%N (world s))))).
    set (data := snd (fst (os_GetDllDirectoryA _ _))).
    pose proof (@stored_c_string CHAR is_NUL NUL n data eq_refl) as H.
    destruct (resize NUL [] n) as [|c0 buf];
      [rewrite H; split; [discriminate | eauto]|].
    destruct (store (c0 :: buf) data) as [[|c1 buf']|];
      try (rewrite H; split; [discriminate | eauto]).
    destruct (c_string is_NUL (c1 :: buf')) as [d|];
      [|rewrite H; split; [discriminate | eauto]].
    destruct H as (-> & -> & Hlen).
    split; [intros _; split; [eauto | exact Hlen] | discriminate].
  - rewrite IncludePluginDirectoryW_eq. cbv zeta.
    set (n := N.to_nat (fst (fst (os_GetDllDirectoryW 0%N (world s))))).
    set (data := snd (fst (os_GetDllDirectoryW _ _))).
    pose proof (@stored_c_string WCHAR is_WNUL WNUL n data eq_refl) as H.
    destruct (resize WNUL [] n) as [|c0 buf];
      [rewrite H; split; [discriminate | eauto]|].
    destruct (store (c0 :: buf) data) as [[|c1 buf']|];
      try (rewrite H; split; [discriminate | eauto]).
    destruct (c_string is_WNUL (c1 :: buf')) as [d|];
      [|rewrite H; split; [discriminate | eauto]].
    destruct H as (-> & -> & Hlen).
    split; [intros _; split; [eauto | exact Hlen] | discriminate].
Qed.

End SavedDirectory.

Lemma IncludePluginDirectory_defined_iff_witness :
  (exists s',
      IncludePluginDirectoryA (lit "C:\plugins\simple.dll")
                              (RefOS.start RefOS.configured)
      = Returned RefOS.app_directory s') /\
  length RefOS.app_directory < 10.
Proof.
  destruct (IncludePluginDirectory_defined_iff (RefOS.start RefOS.configured))
    as [HA _].
  destruct (HA (lit "C:\plugins\simple.dll")) as [Hret _].
  destruct (Hret eq_refl) as [[s' E] Hlen].
  split; [exists s'; exact E | exact Hlen].
Defined.

(** ** The directories the constructors hand to the OS *)

Section Directories.

Context {World : Type} {os : Win32 World}.

(** The directory [IncludePluginDirectoryA] saves is what
    [GetDllDirectoryA] stored in the buffer, up to the first NUL. *)
Lemma IncludePluginDirectoryA_saved (path : LPCSTR) (s s2 : State World)
    (oldDir : list CHAR) :
  IncludePluginDirectoryA path s = Returned oldDir s2 ->
  let r1 := os_GetDllDirectoryW 0%N (world s) in
  oldDir = before_nul is_NUL
             (snd (fst (os_GetDllDirectoryA (fst (fst r1)) (snd r1)))).
Proof.
  rewrite IncludePluginDirectoryA_eq. cbv zeta.
  set (n := N.to_nat (fst (fst (os_GetDllDirectoryW 0%N (world s))))).
  set (data := snd (fst (os_GetDllDirectoryA _ _))).
  pose proof (@stored_c_string CHAR is_NUL NUL n data eq_refl) as H.
  destruct (resize NUL [] n) as [|c0 buf]; [discriminate|].
  destruct (store (c0 :: buf) data) as [[|c1 buf']|]; try discriminate.
  destruct (c_string is_NUL (c1 :: buf')) as [d|]; [|discriminate].
  destruct H as (_ & -> & _). intros E. now injection E as <-.
Qed.

Lemma IncludePluginDirectoryW_saved (path : LPCWSTR) (s s2 : State World)
    (oldDir : list WCHAR) :
  IncludePluginDirectoryW path s = Returned oldDir s2 ->
  let r1 := os_GetDllDirectoryW 0%N (world s) in
  oldDir = before_nul is_WNUL
             (snd (fst (os_GetDllDirectoryW (fst (fst r1)) (snd r1)))).
Proof.
  rewrite IncludePluginDirectoryW_eq. cbv zeta.
  set (n := N.to_nat (fst (fst (os_GetDllDirectoryW 0%N (world s))))).
  set (data := snd (fst (os_GetDllDirectoryW _ _))).
  pose proof (@stored_c_string WCHAR is_WNUL WNUL n data eq_refl) as H.
  destruct (resize WNUL [] n) as [|c0 buf]; [discriminate|].
  destruct (store (c0 :: buf) data) as [[|c1 buf']|]; try discriminate.
  destruct (c_string is_WNUL (c1 :: buf')) as [d|]; [|discriminate].
  destruct H as (_ & -> & _). intros E. now injection E as <-.
Qed.

(** X2. For a narrow path with a backslash, [dir] being its prefix that
    ends before the FIRST backslash, every run of the narrow constructor
    that comes to an end is the following one. After
    [ExcludeCurrentDirectory] come [GetDllDirectoryW(0, nullptr)] and
    [GetDllDirectoryA(n, buffer)]; the saved directory [oldDir] is what the
    latter stored in the buffer, up to the first NUL. Then
    [SetDllDirectoryA(dir)] is applied, unless [dir] is empty, in which
    case no call is made between [GetDllDirectoryA] and the load. Then
    [LoadLibraryA(path)] is applied to the resulting OS state, then
    [SetDllDirectoryA(oldDir)], then, if the handle is null, [GetLastError]
    and [_getcwd]. The constructor stores the handle of that load and
    leaves the OS state of that [SetDllDirectoryA(oldDir)]. *)
Theorem narrow_constructor_directory_is_first_prefix
    (path : LPCSTR) (s s' : State World) :
  In kPathSeparator path ->
  final_state (SharedObjectLoaderA path s) = Some s' ->
  exists dir rest s1 s2,
    path = dir ++ kPathSeparator :: rest /\
    ~ In kPathSeparator dir /\
    ExcludeCurrentDirectory s = Returned tt s1 /\
    let r1 := os_GetDllDirectoryW 0%N (world s1) in
    let n := fst (fst r1) in
    let r2 := os_GetDllDirectoryA n (snd r1) in
    let oldDir := before_nul is_NUL (snd (fst r2)) in
    let set := negb (length dir =? 0) in
    IncludePluginDirectoryA path s1 = Returned oldDir s2 /\
    world s2 = (if set then os_SetDllDirectoryA dir (snd r2) else snd r2) /\
    let r3 := os_LoadLibraryA path (world s2) in
    world s' = os_SetDllDirectoryA oldDir (snd r3) /\
    shared_object s' = fst r3 /\
    calls s' = calls s1
                 ++ [call_GetDllDirectoryW 0%N true;
                     call_GetDllDirectoryA n false]
                 ++ (if set then [call_SetDllDirectoryA dir] else [])
                 ++ [call_LoadLibraryA path; call_SetDllDirectoryA oldDir]
                 ++ (if (fst r3 =? 0)%N
                     then [call_GetLastError; call_getcwd 1024] else []).
Proof.
  intros Hin Hf.
  destruct (GetDirnameA_first_separator path Hin) as (rest & Hs & Hno).
  destruct (SharedObjectLoaderA_trace path s Hf)
    as (s1 & oldDir & s2 & E1 & E2 & Hw & Hso & Hc).
  destruct (IncludePluginDirectoryA_returned path s1 E2) as (Hw2 & Hc2 & _).
  pose proof (IncludePluginDirectoryA_saved path s1 E2) as Hold.
  cbv zeta in Hold. subst oldDir.
  exists (GetDirnameA path), rest, s1, s2. cbv zeta.
  split; [exact Hs|]. split; [exact Hno|]. split; [exact E1|].
  split; [exact E2|]. split; [exact Hw2|]. split; [exact Hw|].
  split; [exact Hso|].
  rewrite Hc, Hc2. now rewrite <- !app_assoc.
Qed.

(** X6. For a wide path with a backslash, [parent] being its parent
    directory (the prefix that ends before the LAST backslash), every run of
    the wide constructor that comes to an end is the following one. After
    [ExcludeCurrentDirectory] come [GetDllDirectoryW(0, nullptr)] and
    [GetDllDirectoryW(n, buffer)]; the saved directory [oldDir] is what the
    latter stored in the buffer, up to the first NUL. Then
    [SetDllDirectoryW(parent)] is applied, unless [parent] is empty, in
    which case no call is made between [GetDllDirectoryW] and the load.
    Then [LoadLibraryW(path)] is applied to the resulting OS state, then
    [SetDllDirectoryW(oldDir)], then, if the handle is null, [GetLastError]
    and [_getcwd]. The constructor stores the handle of that load and
    leaves the OS state of that [SetDllDirectoryW(oldDir)]. *)
Theorem wide_constructor_sets_parent_directory
    (path : LPCWSTR) (s s' : State World) :
  In (wchar_of_char kPathSeparator) path ->
  final_state (SharedObjectLoaderW path s) = Some s' ->
  exists parent rest s1 s2,
    path = parent ++ wchar_of_char kPathSeparator :: rest /\
    ~ In (wchar_of_char kPathSeparator) rest /\
    ExcludeCurrentDirectory s = Returned tt s1 /\
    let r1 := os_GetDllDirectoryW 0%N (world s1) in
    let n := fst (fst r1) in
    let r2 := os_GetDllDirectoryW n (snd r1) in
    let oldDir := before_nul is_WNUL (snd (fst r2)) in
    let set := negb (length parent =? 0) in
    IncludePluginDirectoryW path s1 = Returned oldDir s2 /\
    world s2 = (if set then os_SetDllDirectoryW parent (snd r2) else snd r2) /\
    let r3 := os_LoadLibraryW path (world s2) in
    world s' = os_SetDllDirectoryW oldDir (snd r3) /\
    shared_object s' = fst r3 /\
    calls s' = calls s1
                 ++ [call_GetDllDirectoryW 0%N true;
                     call_GetDllDirectoryW n false]
                 ++ (if set then [call_SetDllDirectoryW parent] else [])
                 ++ [call_LoadLibraryW path; call_SetDllDirectoryW oldDir]
                 ++ (if (fst r3 =? 0)%N
                     then [call_GetLastError; call_getcwd 1024] else []).
Proof.
  intros Hin Hf.
  destruct (GetDirnameW_split path Hin) as (rest & Hs & Hr).
  destruct (SharedObjectLoaderW_trace path s Hf)
    as (s1 & oldDir & s2 & E1 & E2 & Hw & Hso & Hc).
  destruct (IncludePluginDirectoryW_returned path s1 E2) as (Hw2 & Hc2 & _).
  pose proof (IncludePluginDirectoryW_saved path s1 E2) as Hold.
  cbv zeta in Hold. subst oldDir.
  exists (GetDirnameW path), rest, s1, s2. cbv zeta.
  split; [exact Hs|]. split; [exact Hr|]. split; [exact E1|].
  split; [exact E2|]. split; [exact Hw2|]. split; [exact Hw|].
  split; [exact Hso|].
  rewrite Hc, Hc2. now rewrite <- !app_assoc.
Qed.

End Directories.

Lemma narrow_constructor_directory_is_first_prefix_witness :
  exists s' dir rest s1 s2,
    final_state (SharedObjectLoaderA (lit "C:\plugins\cpu\plugin.dll")
                                     (RefOS.start RefOS.configured))
    = Some s' /\
    lit "C:\plugins\cpu\plugin.dll" = dir ++ kPathSeparator :: rest /\
    ~ In kPathSeparator dir /\
    ExcludeCurrentDirectory (RefOS.start RefOS.configured)
    = Returned tt s1 /\
    IncludePluginDirectoryA (lit "C:\plugins\cpu\plugin.dll") s1
    = Returned RefOS.app_directory s2 /\
    shared_object s'
    = fst (os_LoadLibraryA (lit "C:\plugins\cpu\plugin.dll") (world s2)) /\
    calls s' = calls s1
                 ++ [call_GetDllDirectoryW 0%N true;
                     call_GetDllDirectoryA 10%N false]
                 ++ (if negb (length dir =? 0)
                     then [call_SetDllDirectoryA dir] else [])
                 ++ [call_LoadLibraryA (lit "C:\plugins\cpu\plugin.dll");
                     call_SetDllDirectoryA RefOS.app_directory]
                 ++ (if (shared_object s' =? 0)%N
                     then [call_GetLastError; call_getcwd 1024] else []).
Proof.
  assert (In kPathSeparator (lit "C:\plugins\cpu\plugin.dll")) as Hin
      by (vm_compute; tauto).
  assert (exists s',
             final_state
               (SharedObjectLoaderA (lit "C:\plugins\cpu\plugin.dll")
                                    (RefOS.start RefOS.configured))
             = Some s') as [s' Hf] by (eexists; vm_compute; reflexivity).
  destruct (narrow_constructor_directory_is_first_prefix _ _ Hin Hf)
    as (dir & rest & s1 & s2 & Hs & Hno & E1 & E2 & _ & _ & Hso & Hc).
  exists s', dir, rest, s1, s2.
  split; [exact Hf|]. split; [exact Hs|]. split; [exact Hno|].
  split; [exact E1|].
  assert (s1 = mkState RefOS.configured [call_GetDllDirectoryA 0%N true]
                        0%N) as ->
      by (vm_compute in E1; now injection E1).
  split; [exact E2|]. split; [exact Hso|]. rewrite Hso. exact Hc.
Defined.

Lemma wide_constructor_sets_parent_directory_witness :
  exists s' parent rest s1 s2,
    final_state (SharedObjectLoaderW (wlit "C:\plugins\cpu\plugin.dll")
                                     (RefOS.start RefOS.fresh)) = Some s' /\
    wlit "C:\plugins\cpu\plugin.dll"
    = parent ++ wchar_of_char kPathSeparator :: rest /\
    ~ In (wchar_of_char kPathSeparator) rest /\
    ExcludeCurrentDirectory (RefOS.start RefOS.fresh) = Returned tt s1 /\
    IncludePluginDirectoryW (wlit "C:\plugins\cpu\plugin.dll") s1
    = Returned [] s2 /\
    shared_object s'
    = fst (os_LoadLibraryW (wlit "C:\plugins\cpu\plugin.dll") (world s2)) /\
    shared_object s' <> 0%N.
Proof.
  assert (In (wchar_of_char kPathSeparator)
             (wlit "C:\plugins\cpu\plugin.dll")) as Hin
      by (vm_compute; tauto).
  assert (exists s',
             final_state (SharedObjectLoaderW (wlit "C:\plugins\cpu\plugin.dll")
                                              (RefOS.start RefOS.fresh))
             = Some s' /\ shared_object s' <> 0%N) as (s' & Hf & Hne)
      by (eexists; split; [vm_compute; reflexivity | discriminate]).
  destruct (wide_constructor_sets_parent_directory _ _ Hin Hf)
    as (parent & rest & s1 & s2 & Hs & Hr & E1 & E2 & _ & _ & Hso & _).
  exists s', parent, rest, s1, s2.
  split; [exact Hf|]. split; [exact Hs|]. split; [exact Hr|].
  split; [exact E1|].
  assert (s1 = mkState (RefOS.set_dir (Some []) RefOS.fresh)
                       [call_GetDllDirectoryA 0%N true;
                        call_SetDllDirectoryA []] 0%N) as ->
      by (vm_compute in E1; now injection E1).
  split; [exact E2|]. split; [exact Hso | exact Hne].
Defined.

(** ** The narrow constructor on an OS with the documented directory
    semantics *)

Section NarrowLawful.

Context {World : Type} {os : Win32 World}.
Variable dll_directory : World -> option (list CHAR).
Hypothesis laws : DllDirectoryLaws os dll_directory.

(** X9. On an OS with the documented directory semantics, where the narrow
    and the wide form of the DLL directory have the same length, the narrow
    constructor always comes to an end, and whether it returns or throws it
    leaves the DLL directory that [ExcludeCurrentDirectory] establishes:
    the directory of the process when a non-empty one was configured, and
    the empty string (the current directory is not searched) otherwise. *)
Theorem narrow_constructor_restores_directory
    (path : LPCSTR) (s : State World) :
  exists s',
    final_state (SharedObjectLoaderA path s) = Some s' /\
    dll_directory (world s') = excluded (dll_directory (world s)).
Proof.
  destruct (@ExcludeCurrentDirectory_lawful World os dll_directory laws s)
    as (s1 & E1 & Hd1 & _).
  destruct (@SharedObjectLoaderA_lawful World os dll_directory laws path s)
    as (s1' & s2 & s' & after & E1' & _ & Hf & Hd & _).
  rewrite E1 in E1'. injection E1' as <-.
  exists s'. split; [exact Hf|]. now rewrite Hd.
Qed.

End NarrowLawful.

Lemma narrow_constructor_restores_directory_witness :
  exists s',
    final_state (SharedObjectLoaderA (lit "C:\plugins\cpu\plugin.dll")
                                     (RefOS.start RefOS.configured))
    = Some s' /\
    RefOS.dll_directory (world s') = Some RefOS.app_directory.
Proof.
  destruct (narrow_constructor_restores_directory RefOS_laws
              (lit "C:\plugins\cpu\plugin.dll")
              (RefOS.start RefOS.configured)) as (s' & Hf & Hd).
  exists s'. split; [exact Hf | exact Hd].
Defined.

(** ** Reference counts *)

Section Counts.

Context {World : Type} {os : Win32 World}.
Variable ref_count : World -> HMODULE -> nat.
Hypothesis laws : ModuleLaws os ref_count.

Lemma keeps_ret {A : Type} (a : A) : keeps_counts ref_count (@ret World A a).
Proof. intros s h. reflexivity. Qed.

Lemma keeps_undefined {A : Type} (u : UB) :
  keeps_counts ref_count (@undefined World A u).
Proof. intros s. exact I. Qed.

Lemma keeps_throw {A : Type} (e : InferenceEngineException) :
  keeps_counts ref_count (@THROW_IE_EXCEPTION World A e).
Proof. intros s h. reflexivity. Qed.

Lemma keeps_bind {A B : Type} (m : M World A) (k : A -> M World B) :
  keeps_counts ref_count m -> (forall a, keeps_counts ref_count (k a)) ->
  keeps_counts ref_count (bind m k).
Proof.
  intros Hm Hk s. unfold bind. specialize (Hm s).
  destruct (m s) as [a s1|e s1|u]; [|exact Hm|exact I].
  specialize (Hk a s1).
  destruct (k a s1) as [b s2|e s2|u]; [| |exact I];
    intros h; now rewrite Hk, Hm.
Qed.

Lemma keeps_os_call {A : Type} (c : Call) (f : World -> A * World) :
  (forall w h, ref_count (snd (f w)) h = ref_count w h) ->
  keeps_counts ref_count (os_call c f).
Proof.
  intros Hf s. unfold os_call. specialize (Hf (world s)).
  destruct (f (world s)) as [a w]. exact Hf.
Qed.

Lemma keeps_try_catch {A : Type} (m : M World A) :
  keeps_counts ref_count m -> keeps_counts ref_count (try_catch m).
Proof.
  intros Hm s. unfold try_catch. specialize (Hm s).
  now destruct (m s).
Qed.

Lemma keeps_get_shared_object : keeps_counts ref_count get_shared_object.
Proof. intros s h. reflexivity. Qed.

Lemma keeps_front {C : Type} (v : list C) :
  keeps_counts ref_count (@front World C v).
Proof. destruct v; [apply keeps_undefined | apply keeps_ret]. Qed.

Lemma keeps_string_at {C : Type} (is_nul : C -> bool) (buf : list C) :
  keeps_counts ref_count (@string_at World C is_nul buf).
Proof.
  unfold string_at. destruct (c_string is_nul buf);
    [apply keeps_ret | apply keeps_undefined].
Qed.

Lemma keeps_GetDllDirectoryA n buf :
  keeps_counts ref_count (GetDllDirectoryA n buf).
Proof.
  unfold GetDllDirectoryA. apply keeps_bind.
  - apply keeps_os_call. intros w h.
    apply (@GetDllDirectoryA_counts World os ref_count laws).
  - intros r. destruct buf as [buf|]; [|apply keeps_ret].
    destruct (store buf (snd r)); [apply keeps_ret | apply keeps_undefined].
Qed.

Lemma keeps_GetDllDirectoryW n buf :
  keeps_counts ref_count (GetDllDirectoryW n buf).
Proof.
  unfold GetDllDirectoryW. apply keeps_bind.
  - apply keeps_os_call. intros w h.
    apply (@GetDllDirectoryW_counts World os ref_count laws).
  - intros r. destruct buf as [buf|]; [|apply keeps_ret].
    destruct (store buf (snd r)); [apply keeps_ret | apply keeps_undefined].
Qed.

Lemma keeps_SetDllDirectoryA d : keeps_counts ref_count (SetDllDirectoryA d).
Proof.
  apply keeps_os_call. intros w h.
  apply (@SetDllDirectoryA_counts World os ref_count laws).
Qed.

Lemma keeps_SetDllDirectoryW d : keeps_counts ref_count (SetDllDirectoryW d).
Proof.
  apply keeps_os_call. intros w h.
  apply (@SetDllDirectoryW_counts World os ref_count laws).
Qed.

Lemma keeps_GetProcAddress h0 name :
  keeps_counts ref_count (GetProcAddress h0 name).
Proof.
  apply keeps_os_call. intros w h.
  apply (@GetProcAddress_counts World os ref_count laws).
Qed.

Lemma keeps_GetLastError : keeps_counts ref_count GetLastError.
Proof. apply keeps_os_call. reflexivity. Qed.

Ltac keeps_step :=
  first
    [ apply keeps_GetDllDirectoryW | apply keeps_GetDllDirectoryA
    | apply keeps_SetDllDirectoryW | apply keeps_SetDllDirectoryA
    | apply keeps_GetProcAddress | apply keeps_GetLastError
    | apply keeps_get_shared_object
    | apply keeps_front | apply keeps_string_at
    | apply keeps_ret | apply keeps_undefined | apply keeps_throw
    | match goal with
      | |- keeps_counts _ (if ?b then _ else _) => destruct b
      end
    | apply keeps_bind; [|intros ?] ].

Lemma keeps_before_load path : keeps_counts ref_count (before_load path).
Proof.
  unfold before_load, ExcludeCurrentDirectory, GetDllDirectory_NULL,
    SetDllDirectory_TEXT_empty, IncludePluginDirectoryA.
  repeat keeps_step.
Qed.

Lemma keeps_get_symbol name : keeps_counts ref_count (get_symbol name).
Proof. unfold get_symbol. repeat keeps_step. Qed.

Lemma keeps_get_symbols names : keeps_counts ref_count (get_symbols names).
Proof.
  induction names as [|name names IH]; simpl; [apply keeps_ret|].
  apply keeps_bind; [apply keeps_try_catch, keeps_get_symbol|].
  intros r. apply keeps_bind; [exact IH|]. intros rs. apply keeps_ret.
Qed.

(** The counts after the narrow constructor. *)
Lemma SharedObjectLoaderA_ref_counts (path : LPCSTR) (s : State World) :
  match SharedObjectLoaderA path s with
  | Returned _ s' =>
      shared_object s' <> 0%N /\
      forall h, ref_count (world s') h
                = if (h =? shared_object s')%N
                  then S (ref_count (world s) h) else ref_count (world s) h
  | Threw _ s' => forall h, ref_count (world s') h = ref_count (world s) h
  | Undefined _ => True
  end.
Proof.
  rewrite SharedObjectLoaderA_after_load.
  pose proof (keeps_before_load path s) as Hk.
  pose proof (quiet_before_load path s) as Hq.
  destruct (before_load path s) as [oldDir s2|e0 s2|u];
    [|contradiction|exact I].
  cbv zeta.
  pose proof (@LoadLibraryA_counts World os ref_count laws path (world s2))
    as Hload.
  destruct (N.eqb_spec (fst (os_LoadLibraryA path (world s2))) 0) as [E0|N0].
  - intros h. cbn [world shared_object].
    rewrite (@SetDllDirectoryA_counts World os ref_count laws), Hload, E0.
    cbn [N.eqb negb andb]. apply Hk.
  - cbn [world shared_object]. split; [exact N0|]. intros h.
    rewrite (@SetDllDirectoryA_counts World os ref_count laws), Hload.
    cbn [negb andb]. now rewrite Hk.
Qed.

(** X10. On an OS that counts the references to each module, a narrow
    constructor that returns has added exactly one reference to the module
    whose handle it stores and has changed no other count; one that throws
    has changed no count; and the destructor of a loader whose module is
    still referenced takes exactly one reference from that module. *)
Theorem constructor_takes_one_reference (path : LPCSTR) (s : State World) :
  (forall s',
      SharedObjectLoaderA path s = Returned tt s' ->
      forall h, ref_count (world s') h
                = if (h =? shared_object s')%N
                  then S (ref_count (world s) h) else ref_count (world s) h) /\
  (forall e s',
      SharedObjectLoaderA path s = Threw e s' ->
      forall h, ref_count (world s') h = ref_count (world s) h) /\
  (0 < ref_count (world s) (shared_object s) ->
   exists s',
     SharedObjectLoader_dtor s = Returned tt s' /\
     forall h, ref_count (world s') h
               = if (h =? shared_object s)%N
                 then pred (ref_count (world s) h) else ref_count (world s) h).
Proof.
  pose proof (SharedObjectLoaderA_ref_counts path s) as H.
  split; [|split].
  - intros s' E. rewrite E in H. apply H.
  - intros e s' E. rewrite E in H. exact H.
  - intros Hpos. rewrite SharedObjectLoader_dtor_eq. eexists.
    split; [reflexivity|]. intros h. simpl.
    now apply (@FreeLibrary_counts World os ref_count laws).
Qed.

(** X11. On an OS that counts the references to each module, the life of a
    loader in a block scope (construction, any sequence of symbol look-ups,
    destruction) leaves every reference count as it found it, also when the
    constructor leaves the block by exception: the loader leaks no module
    and frees none it did not load. *)
Theorem scoped_loader_balances_reference_counts
    (path : LPCSTR) (names : list LPCSTR) (s s' : State World) :
  final_state (scoped_loader path names s) = Some s' ->
  forall h, ref_count (world s') h = ref_count (world s) h.
Proof.
  unfold scoped_loader, bind.
  pose proof (SharedObjectLoaderA_ref_counts path s) as Hc.
  destruct (SharedObjectLoaderA path s) as [[] s1|e s1|u];
    [| intros E; injection E as <-; exact Hc | discriminate].
  destruct Hc as [Hh Hc].
  destruct (get_symbols_with_handle names s1 Hh)
    as (rs & s2 & l & E & Hso & _).
  pose proof (keeps_get_symbols names s1) as Hk.
  rewrite E in Hk. rewrite E.
  rewrite SharedObjectLoader_dtor_eq. simpl.
  intros E'. injection E' as <-. intros h. simpl.
  assert (0 < ref_count (world s2) (shared_object s2)) as Hpos.
  { rewrite Hk, Hc, Hso, N.eqb_refl. lia. }
  rewrite (@FreeLibrary_counts World os ref_count laws _ _ h Hpos).
  rewrite Hk, Hc, Hso.
  now destruct (h =? shared_object s1)%N.
Qed.

End Counts.

(** ** The reference OS counts the references to its modules *)

Lemma count_occ_remove_one (h0 h : HMODULE) (l : list HMODULE) :
  count_occ N.eq_dec (RefOS.remove_one h0 l) h
  = if (h =? h0)%N then pred (count_occ N.eq_dec l h)
    else count_occ N.eq_dec l h.
Proof.
  induction l as [|x l IH]; cbn [RefOS.remove_one count_occ].
  - now destruct (h =? h0)%N.
  - destruct (N.eqb_spec x h0) as [->|Hx].
    + destruct (N.eqb_spec h h0) as [->|Hh];
        destruct (N.eq_dec h0 _) as [E|E]; try reflexivity; congruence.
    + cbn [count_occ]. rewrite IH.
      destruct (N.eqb_spec h h0) as [->|Hh];
        destruct (N.eq_dec x _) as [E|E]; try reflexivity; congruence.
Qed.

Lemma RefOS_module_laws (cp : RefOS.CodePage) :
  ModuleLaws (RefOS.os_with cp) RefOS_ref_count.
Proof.
  constructor; unfold RefOS_ref_count; cbn [os_LoadLibraryA os_FreeLibrary
    os_GetProcAddress os_GetDllDirectoryA os_GetDllDirectoryW
    os_SetDllDirectoryA os_SetDllDirectoryW RefOS.os_with].
  - intros p w h. unfold RefOS.LoadLibraryA.
    destruct (RefOS.find_image p w) as [i|]; [|reflexivity].
    destruct (negb (RefOS.img_handle i =? 0)%N
              && forallb (RefOS.import_found w) (RefOS.img_imports i))
      eqn:Ec; [|reflexivity].
    apply andb_prop in Ec. destruct Ec as [Hnz _].
    cbn [fst snd RefOS.set_loaded RefOS.loaded count_occ]. rewrite Hnz.
    cbn [andb].
    destruct (N.eqb_spec h (RefOS.img_handle i)) as [->|Hh];
      destruct (N.eq_dec (RefOS.img_handle i) _) as [E|E];
      try reflexivity; congruence.
  - intros h0 w h Hpos. unfold RefOS.FreeLibrary, RefOS.is_loaded.
    assert (existsb (N.eqb h0) (RefOS.loaded w) = true) as ->.
    { apply existsb_exists. exists h0. split; [|apply N.eqb_refl].
      now apply (count_occ_In N.eq_dec). }
    cbn [RefOS.set_loaded RefOS.loaded]. apply count_occ_remove_one.
  - intros h0 name w h. unfold RefOS.GetProcAddress.
    now destruct (_ =? 0)%N.
  - intros n w h. unfold RefOS.GetDllDirectoryA. now destruct (_ <? n)%N.
  - intros n w h. unfold RefOS.GetDllDirectoryW. now destruct (_ <? n)%N.
  - reflexivity.
  - reflexivity.
Qed.

Lemma constructor_takes_one_reference_witness :
  exists s',
    SharedObjectLoaderA (lit "C:\plugins\simple.dll")
                        (RefOS.start RefOS.fresh) = Returned tt s' /\
    RefOS_ref_count (world s') (shared_object s') = 1.
Proof.
  destruct (constructor_takes_one_reference
              (RefOS_module_laws RefOS.single_byte)
              (lit "C:\plugins\simple.dll") (RefOS.start RefOS.fresh))
    as (Hret & _ & _).
  assert (exists s',
             SharedObjectLoaderA (lit "C:\plugins\simple.dll")
                                 (RefOS.start RefOS.fresh) = Returned tt s')
    as [s' E] by (eexists; vm_compute; reflexivity).
  exists s'. split; [exact E|].
  pose proof (Hret s' E (shared_object s')) as H.
  rewrite N.eqb_refl in H. exact H.
Defined.

Lemma scoped_loader_balances_reference_counts_witness :
  exists s',
    final_state (scoped_loader (lit "C:\plugins\simple.dll")
                               [lit "CreatePluginEngine"; lit "NoSuchSymbol"]
                               (RefOS.start RefOS.fresh)) = Some s' /\
    forall h, RefOS_ref_count (world s') h = 0.
Proof.
  assert (exists s',
             final_state
               (scoped_loader (lit "C:\plugins\simple.dll")
                              [lit "CreatePluginEngine"; lit "NoSuchSymbol"]
                              (RefOS.start RefOS.fresh)) = Some s')
    as [s' E] by (eexists; vm_compute; reflexivity).
  exists s'. split; [exact E|].
  exact (scoped_loader_balances_reference_counts
           (RefOS_module_laws RefOS.single_byte) _ _ _ E).
Defined.
